(** * ISC DHCP to Kea migration: subnet matcher and migration engine

    A shallow embedding of [src/cidr.ts] (class [SubnetMatcher]) and
    [src/migrator.ts] (class [DHCPMigrator]), with the properties of the
    specification proved about it.

    Conventions.
    - A JavaScript string is a [string]; parsers look at its characters
      through [chars].
    - A JavaScript number that holds an integer is a [Z].
    - [null] results and caught exceptions are [None].
    - A JavaScript [Map] is an association list in insertion order
      ([Map_set] keeps the position of a key that is already present).
    - [console.log] / [console.warn] output is not part of the model. *)

From Stdlib Require Import ZArith String Ascii.
From stdpp Require Import base tactics option list numbers strings pretty.

Local Open Scope Z_scope.

(** ** Characters and strings *)

Definition chars (s : string) : list ascii := list_ascii_of_string s.

(** [\d] of a JavaScript regular expression (no [u] flag): [0-9]. *)
Definition is_digit (c : ascii) : bool :=
  (48 <=? nat_of_ascii c)%nat && (nat_of_ascii c <=? 57)%nat.

Definition digit_value (c : ascii) : Z := Z.of_nat (nat_of_ascii c) - 48.

(** Value of a string of decimal digits, most significant digit first. *)
Definition digits_value (cs : list ascii) : Z :=
  foldl (λ acc c, 10 * acc + digit_value c) 0 cs.

(** [s.split(sep)] for a one-character separator: never the empty list,
    [''.split('.')] is [['']]. *)
Fixpoint split_on (sep : ascii) (cs : list ascii) : list (list ascii) :=
  match cs with
  | [] => [[]]
  | c :: cs' =>
      if decide (c = sep) then [] :: split_on sep cs'
      else match split_on sep cs' with
           | [] => [[c]]
           | p :: ps => (c :: p) :: ps
           end
  end.

(** Truthiness of a string ([!s] is [negb (truthy s)]) and of an optional
    string field ([undefined] is falsy). *)
Definition truthy (s : string) : bool := negb (bool_decide (s = "")).

Definition truthy_opt (o : option string) : bool :=
  match o with Some s => truthy s | None => false end.

(** ** The address library (ip-num) *)

(** Modelled from the spec: the class [IPv4] of the third-party package
    ip-num, whose source is not part of the repository.  The constructor
    [new IPv4(s)] accepts exactly four dot-separated decimal octets, each in
    0..255, and throws otherwise; its value is the address as an unsigned
    32-bit integer.  [None] stands for the exception. *)
Definition parse_octet (cs : list ascii) : option Z :=
  if forallb is_digit cs && negb (bool_decide (cs = [])) &&
     (digits_value cs <=? 255)
  then Some (digits_value cs) else None.

Definition ipv4_value (a b c d : Z) : Z := ((a * 256 + b) * 256 + c) * 256 + d.

Definition IPv4 (s : string) : option Z :=
  match split_on "." (chars s) with
  | [a; b; c; d] =>
      a ← parse_octet a; b ← parse_octet b;
      c ← parse_octet c; d ← parse_octet d;
      Some (ipv4_value a b c d)
  | _ => None
  end.

(** Modelled from the spec: the class [IPv4CidrRange] of ip-num.  A range is
    a base address and a prefix length; first and last address come from the
    prefix mask with plain 32-bit arithmetic, and containment is the closed
    interval test between them. *)
Record IPv4CidrRange := { ipv4 : Z; cidrPrefix : Z }.

Definition toMask (prefix : Z) : Z := Z.shiftl (Z.ones prefix) (32 - prefix).

Definition getFirst (r : IPv4CidrRange) : Z :=
  Z.land (ipv4 r) (toMask (cidrPrefix r)).

Definition getLast (r : IPv4CidrRange) : Z :=
  Z.lor (getFirst r) (Z.ones (32 - cidrPrefix r)).

Definition getSize (r : IPv4CidrRange) : Z := 2 ^ (32 - cidrPrefix r).

Definition contains (r : IPv4CidrRange) (ip : Z) : bool :=
  (getFirst r <=? ip) && (ip <=? getLast r).

(** [IPv4CidrRange.fromCidr(`${subnet}/${prefix}`)]: throws unless the
    address is a valid IPv4 string and the prefix is in 0..32. *)
Definition fromCidr (subnet : string) (prefix : Z) : option IPv4CidrRange :=
  ip ← IPv4 subnet;
  if (0 <=? prefix) && (prefix <=? 32)
  then Some {| ipv4 := ip; cidrPrefix := prefix |} else None.

(** ** JavaScript [Map] *)

Section js_map.
Context {K V : Type} `{EqDecision K}.

Definition Map := list (K * V).

(** [m.set(k, v)]: replaces the value in place when [k] is present, appends
    a new entry otherwise. *)
Fixpoint Map_set (m : Map) (k : K) (v : V) : Map :=
  match m with
  | [] => [(k, v)]
  | (k', v') :: m' =>
      if decide (k' = k) then (k, v) :: m' else (k', v') :: Map_set m' k v
  end.

(** [m.get(k)] *)
Fixpoint Map_get (m : Map) (k : K) : option V :=
  match m with
  | [] => None
  | (k', v') :: m' => if decide (k' = k) then Some v' else Map_get m' k
  end.
End js_map.

Arguments Map : clear implicits.

(** ** types.ts *)

Module Subnet.
Record t := mk { uuid : string; subnet : string; netmask : string }.
End Subnet.

Module StaticMapping.
Record t := mk {
  mac : string;
  ipaddr : string;
  hostname : option string;
  description : option string;
  cid : option string;
  descr : option string
}.
End StaticMapping.

Module Reservation.
Record t := mk {
  uuid : string;
  subnet : string;
  hw_address : string;
  ip_address : string;
  hostname : option string;
  description : option string
}.
End Reservation.

Module MigrationResult.
Record t := mk {
  reservations : list Reservation.t;
  reservationsCreated : Z;
  unmatchedIPs : list string;
  warnings : list string;
  errors : list string
}.
End MigrationResult.

Module MigrationStats.
Record t := mk {
  totalStaticMappings : Z;
  totalSubnets : Z;
  successfulMigrations : Z;
  failedMigrations : Z;
  unmatchedIPs : Z;
  warnings : Z;
  errors : Z
}.
End MigrationStats.

(** ** cidr.ts: SubnetMatcher *)

(** [/^\d+$/.test(s)] *)
Definition test_digits (s : string) : bool :=
  forallb is_digit (chars s) && negb (bool_decide (chars s = [])).

(** [\d{1,3}] against a whole piece. *)
Definition digits_1_3 (cs : list ascii) : bool :=
  forallb is_digit cs && (1 <=? length cs)%nat && (length cs <=? 3)%nat.

(** [/^\d{1,3}\.\d{1,3}\.\d{1,3}\.\d{1,3}$/.test(s)]: as a digit is never a
    dot, the string matches exactly when cutting it at its dots gives four
    pieces of one to three digits. *)
Definition test_dotted_quad (s : string) : bool :=
  match split_on "." (chars s) with
  | [a; b; c; d] => digits_1_3 a && digits_1_3 b && digits_1_3 c && digits_1_3 d
  | _ => false
  end.

(** [parseInt(s, 10)] on a string of digits. *)
Definition parseInt (s : string) : Z := digits_value (chars s).

(** [Number(s)] on a piece of a split string; [None] is [NaN].
    [netmaskToCIDR] is private and reached only from [buildCIDR], behind the
    dotted-quad test, so a piece is a string of digits there (the empty
    string converts to 0). *)
Definition Number (cs : list ascii) : option Z :=
  if forallb is_digit cs then Some (digits_value cs) else None.

(** [n.toString(2)] for an integer. *)
Fixpoint pos_toString2 (p : positive) : list ascii :=
  match p with
  | xH => ["1"%char]
  | xO q => pos_toString2 q ++ ["0"%char]
  | xI q => pos_toString2 q ++ ["1"%char]
  end.

Definition toString2 (n : Z) : list ascii :=
  match n with
  | Z0 => ["0"%char]
  | Zpos p => pos_toString2 p
  | Zneg p => "-"%char :: pos_toString2 p
  end.

(** [s.padStart(n, c)] *)
Definition padStart (n : nat) (c : ascii) (s : list ascii) : list ascii :=
  replicate (n - length s)%nat c ++ s.

(** [binary.match(/^1*/)?.[0].length || 0] *)
Fixpoint leading_ones (cs : list ascii) : nat :=
  match cs with
  | c :: cs' => if decide (c = "1"%char) then S (leading_ones cs') else O
  | [] => O
  end.

(** [c.repeat(n)]: a [RangeError] for a negative count. *)
Definition repeat_char (c : ascii) (n : Z) : option (list ascii) :=
  if n <? 0 then None else Some (replicate (Z.to_nat n) c).

Definition octet_out_of_range (o : option Z) : bool :=
  match o with
  | None => true
  | Some v => (v <? 0) || (255 <? v)
  end.

Definition netmaskToCIDR (netmask : string) : option Z :=
  let octets := Number <$> split_on "." (chars netmask) in
  if negb (length octets =? 4)%nat then None
  else if existsb octet_out_of_range octets then None
  else
    let binary :=
      concat ((λ o, padStart 8 "0"%char (toString2 (default 0 o))) <$> octets) in
    let ones := Z.of_nat (leading_ones binary) in
    match repeat_char "0"%char (32 - ones) with
    | None => None
    | Some zeros =>
        let expectedBinary := replicate (Z.to_nat ones) "1"%char ++ zeros in
        if bool_decide (binary = expectedBinary) then Some ones else None
    end.

Definition buildCIDR (subnet netmask : string) : option IPv4CidrRange :=
  match IPv4 subnet with
  | None => None
  | Some _ =>
      if test_digits netmask then
        let prefix := parseInt netmask in
        if (prefix <? 0) || (32 <? prefix) then None
        else fromCidr subnet prefix
      else if test_dotted_quad netmask then
        match netmaskToCIDR netmask with
        | None => None
        | Some prefixLength => fromCidr subnet prefixLength
        end
      else None
  end.

Record SubnetMatcher := {
  subnets : Map string IPv4CidrRange;
  subnetMetadata : Map string Subnet.t
}.

Definition addSubnet (m : SubnetMatcher) (s : Subnet.t) : SubnetMatcher :=
  match buildCIDR (Subnet.subnet s) (Subnet.netmask s) with
  | Some cidr =>
      {| subnets := Map_set (subnets m) (Subnet.uuid s) cidr;
         subnetMetadata := Map_set (subnetMetadata m) (Subnet.uuid s) s |}
  | None => m
  end.

Definition buildSubnetMap (m : SubnetMatcher) (l : list Subnet.t) : SubnetMatcher :=
  foldl addSubnet m l.

(** [new SubnetMatcher(subnets)] *)
Definition newSubnetMatcher (l : list Subnet.t) : SubnetMatcher :=
  buildSubnetMap {| subnets := []; subnetMetadata := [] |} l.

(** The loop of [findSubnetForIP] over [this.subnets.entries()]. *)
Fixpoint firstContaining (es : Map string IPv4CidrRange) (ip : Z) : option string :=
  match es with
  | [] => None
  | (uuid, cidrRange) :: es' =>
      if contains cidrRange ip then Some uuid else firstContaining es' ip
  end.

Definition findSubnetForIP (m : SubnetMatcher) (ipAddress : string) : option string :=
  match IPv4 ipAddress with
  | None => None
  | Some ip => firstContaining (subnets m) ip
  end.

Definition getSubnetInfo (m : SubnetMatcher) (uuid : string) : option Subnet.t :=
  Map_get (subnetMetadata m) uuid.

Definition getAllSubnets (m : SubnetMatcher) : list Subnet.t :=
  (subnetMetadata m).*2.

Definition getCIDRRange (m : SubnetMatcher) (uuid : string) : option IPv4CidrRange :=
  Map_get (subnets m) uuid.

Definition isValidIP (ipAddress : string) : bool :=
  match IPv4 ipAddress with Some _ => true | None => false end.

(** ** migrator.ts: DHCPMigrator *)

Record DHCPMigrator := {
  subnetMatcher : SubnetMatcher;
  verbose : bool
}.

(** [new DHCPMigrator(subnets, verbose)] *)
Definition newDHCPMigrator (l : list Subnet.t) (verbose : bool) : DHCPMigrator :=
  {| subnetMatcher := newSubnetMatcher l; verbose := verbose |}.

(** [[0-9A-Fa-f]] *)
Definition is_hex (c : ascii) : bool :=
  let n := nat_of_ascii c in
  is_digit c || ((65 <=? n)%nat && (n <=? 70)%nat)
             || ((97 <=? n)%nat && (n <=? 102)%nat).

(** [[:-]] *)
Definition is_sep (c : ascii) : bool :=
  bool_decide (c = ":"%char) || bool_decide (c = "-"%char).

(** The pieces of the first pattern consume a fixed number of characters, so
    matching is a left-to-right scan that returns the rest of the input. *)
Definition eat_hex2 (cs : list ascii) : option (list ascii) :=
  match cs with
  | a :: b :: rest => if is_hex a && is_hex b then Some rest else None
  | _ => None
  end.

Definition eat_sep (cs : list ascii) : option (list ascii) :=
  match cs with
  | c :: rest => if is_sep c then Some rest else None
  | _ => None
  end.

(** [([0-9A-Fa-f]{2}[:-]){n}] *)
Fixpoint eat_groups (n : nat) (cs : list ascii) : option (list ascii) :=
  match n with
  | O => Some cs
  | S n' => rest ← eat_hex2 cs; rest ← eat_sep rest; eat_groups n' rest
  end.

(** [/^([0-9A-Fa-f]{2}[:-]){5}([0-9A-Fa-f]{2})$/.test(s)] *)
Definition mac_pattern_groups (s : string) : bool :=
  match eat_groups 5 (chars s) ≫= eat_hex2 with
  | Some [] => true
  | _ => false
  end.

(** [/^[0-9A-Fa-f]{12}$/.test(s)] *)
Definition mac_pattern_bare (s : string) : bool :=
  (length (chars s) =? 12)%nat && forallb is_hex (chars s).

Definition isValidMAC (mac : string) : bool :=
  existsb (λ pattern, pattern mac) [mac_pattern_groups; mac_pattern_bare].

(** The four arrays that [migrate] fills, and the number of calls made to
    [randomUUID] so far. *)
Record MigrateState := {
  st_reservations : list Reservation.t;
  st_unmatchedIPs : list string;
  st_warnings : list string;
  st_errors : list string;
  st_uuidCalls : nat
}.

Definition initialState : MigrateState :=
  {| st_reservations := []; st_unmatchedIPs := []; st_warnings := [];
     st_errors := []; st_uuidCalls := O |}.

Definition push_warning (w : string) (st : MigrateState) : MigrateState :=
  {| st_reservations := st_reservations st;
     st_unmatchedIPs := st_unmatchedIPs st;
     st_warnings := st_warnings st ++ [w];
     st_errors := st_errors st;
     st_uuidCalls := st_uuidCalls st |}.

Definition push_error (e : string) (st : MigrateState) : MigrateState :=
  {| st_reservations := st_reservations st;
     st_unmatchedIPs := st_unmatchedIPs st;
     st_warnings := st_warnings st;
     st_errors := st_errors st ++ [e];
     st_uuidCalls := st_uuidCalls st |}.

Definition push_unmatched (ip : string) (st : MigrateState) : MigrateState :=
  {| st_reservations := st_reservations st;
     st_unmatchedIPs := st_unmatchedIPs st ++ [ip];
     st_warnings := st_warnings st;
     st_errors := st_errors st;
     st_uuidCalls := st_uuidCalls st |}.

Definition push_reservation (r : Reservation.t) (st : MigrateState) : MigrateState :=
  {| st_reservations := st_reservations st ++ [r];
     st_unmatchedIPs := st_unmatchedIPs st;
     st_warnings := st_warnings st;
     st_errors := st_errors st;
     st_uuidCalls := S (st_uuidCalls st) |}.

(** [a || b] on optional strings. *)
Definition or_else (a b : option string) : option string :=
  if truthy_opt a then a else b.

Definition missingFieldsWarning (i : nat) (mapping : StaticMapping.t) : string :=
  "Skipping mapping #" +:+ pretty (i + 1)%nat +:+
  ": Missing required fields (mac: " +:+ StaticMapping.mac mapping +:+
  ", ip: " +:+ StaticMapping.ipaddr mapping +:+ ")".

Definition invalidMACWarning (mapping : StaticMapping.t) : string :=
  "Invalid MAC address format: " +:+ StaticMapping.mac mapping +:+
  " (IP: " +:+ StaticMapping.ipaddr mapping +:+ ")".

Definition invalidIPError (mapping : StaticMapping.t) : string :=
  "Invalid IP address: " +:+ StaticMapping.ipaddr mapping +:+
  " (MAC: " +:+ StaticMapping.mac mapping +:+ ")".

Definition noSubnetWarning (mapping : StaticMapping.t) : string :=
  "No subnet found for IP: " +:+ StaticMapping.ipaddr mapping +:+
  " (MAC: " +:+ StaticMapping.mac mapping +:+
  (if truthy_opt (StaticMapping.hostname mapping)
   then ", hostname: " +:+ default "" (StaticMapping.hostname mapping)
   else "") +:+ ")".

(** The object literal of [migrate] and the two optional fields it may add;
    [uuid] is the result of the call to [randomUUID]. *)
Definition makeReservation (uuid subnetUUID : string)
    (mapping : StaticMapping.t) : Reservation.t :=
  {| Reservation.uuid := uuid;
     Reservation.subnet := subnetUUID;
     Reservation.hw_address := StaticMapping.mac mapping;
     Reservation.ip_address := StaticMapping.ipaddr mapping;
     Reservation.hostname :=
       if truthy_opt (StaticMapping.hostname mapping)
       then StaticMapping.hostname mapping else None;
     Reservation.description :=
       let d := or_else (StaticMapping.description mapping)
                        (StaticMapping.descr mapping) in
       if truthy_opt d then d else None |}.

Section migrate.
(** [randomUUID()] of the crypto module: the result of its [n]-th call. *)
Variable randomUUID : nat → string.

(** One turn of the [for] loop of [migrate], for the mapping at index [i]. *)
Definition migrateOne (this : DHCPMigrator) (i : nat)
    (mapping : StaticMapping.t) (st : MigrateState) : MigrateState :=
  if negb (truthy (StaticMapping.mac mapping))
     || negb (truthy (StaticMapping.ipaddr mapping))
  then push_warning (missingFieldsWarning i mapping) st
  else if negb (isValidMAC (StaticMapping.mac mapping))
  then push_warning (invalidMACWarning mapping) st
  else if negb (isValidIP (StaticMapping.ipaddr mapping))
  then push_error (invalidIPError mapping) st
  else
    let subnetUUID :=
      findSubnetForIP (subnetMatcher this) (StaticMapping.ipaddr mapping) in
    if negb (truthy_opt subnetUUID)
    then push_warning (noSubnetWarning mapping)
           (push_unmatched (StaticMapping.ipaddr mapping) st)
    else push_reservation
           (makeReservation (randomUUID (st_uuidCalls st))
                            (default "" subnetUUID) mapping) st.

Fixpoint migrateLoop (this : DHCPMigrator) (i : nat)
    (staticMappings : list StaticMapping.t) (st : MigrateState) : MigrateState :=
  match staticMappings with
  | [] => st
  | mapping :: rest => migrateLoop this (S i) rest (migrateOne this i mapping st)
  end.

Definition resultOf (st : MigrateState) : MigrationResult.t :=
  {| MigrationResult.reservations := st_reservations st;
     MigrationResult.reservationsCreated := Z.of_nat (length (st_reservations st));
     MigrationResult.unmatchedIPs := st_unmatchedIPs st;
     MigrationResult.warnings := st_warnings st;
     MigrationResult.errors := st_errors st |}.

Definition migrate (this : DHCPMigrator)
    (staticMappings : list StaticMapping.t) : MigrationResult.t :=
  resultOf (migrateLoop this O staticMappings initialState).
End migrate.

Definition getStats (this : DHCPMigrator) (staticMappings : list StaticMapping.t)
    (result : MigrationResult.t) : MigrationStats.t :=
  let subnets := getAllSubnets (subnetMatcher this) in
  {| MigrationStats.totalStaticMappings := Z.of_nat (length staticMappings);
     MigrationStats.totalSubnets := Z.of_nat (length subnets);
     MigrationStats.successfulMigrations := MigrationResult.reservationsCreated result;
     MigrationStats.failedMigrations :=
       Z.of_nat (length staticMappings) - MigrationResult.reservationsCreated result;
     MigrationStats.unmatchedIPs := Z.of_nat (length (MigrationResult.unmatchedIPs result));
     MigrationStats.warnings := Z.of_nat (length (MigrationResult.warnings result));
     MigrationStats.errors := Z.of_nat (length (MigrationResult.errors result)) |}.

Definition noSubnetsIssue : string := "No Kea subnets found in configuration".
Definition noMappingsIssue : string :=
  "No ISC DHCP static mappings found in configuration".
Definition noValidMappingsIssue : string :=
  "No valid static mappings found (missing MAC or IP addresses)".

(** The counting loop of [validateMigration]. *)
Definition countValidMappings (staticMappings : list StaticMapping.t) : nat :=
  foldl (λ validMappings mapping,
           if truthy (StaticMapping.mac mapping) && truthy (StaticMapping.ipaddr mapping)
           then S validMappings else validMappings)
        O staticMappings.

Record Validation := { valid : bool; issues : list string }.

Definition validateMigration (this : DHCPMigrator)
    (staticMappings : list StaticMapping.t) : Validation :=
  let issues0 : list string := [] in
  let subnets := getAllSubnets (subnetMatcher this) in
  let issues1 :=
    if (length subnets =? 0)%nat then issues0 ++ [noSubnetsIssue] else issues0 in
  let issues2 :=
    if (length staticMappings =? 0)%nat then issues1 ++ [noMappingsIssue] else issues1 in
  let validMappings := countValidMappings staticMappings in
  let issues3 :=
    if (validMappings =? 0)%nat && (0 <? length staticMappings)%nat
    then issues2 ++ [noValidMappingsIssue] else issues2 in
  {| valid := (length issues3 =? 0)%nat; issues := issues3 |}.

(** ** Vocabulary of the statements *)

(** The ranges that construction keeps, in the order of the input list: one
    per subnet record for which [buildCIDR] gives a range. *)
Definition retainedRanges (l : list Subnet.t) : list (string * IPv4CidrRange) :=
  omap (λ s, (λ cidr, (Subnet.uuid s, cidr))
               <$> buildCIDR (Subnet.subnet s) (Subnet.netmask s)) l.

(** The address lies in the closed interval of the range. *)
Definition inRange (r : IPv4CidrRange) (ip : Z) : Prop :=
  getFirst r ≤ ip ≤ getLast r.

(** Two hexadecimal digits. *)
Definition hexPair (cs : list ascii) : Prop :=
  ∃ a b, cs = [a; b] ∧ is_hex a = true ∧ is_hex b = true.

(** A colon or a dash. *)
Definition separator (c : ascii) : Prop := c = ":"%char ∨ c = "-"%char.

(** Six groups of two hexadecimal digits with one separator between
    neighbours; each of the five separators is a colon or a dash. *)
Definition separatedGroups (cs : list ascii) : Prop :=
  ∃ g1 g2 g3 g4 g5 g6 p1 p2 p3 p4 p5,
    cs = g1 ++ p1 :: g2 ++ p2 :: g3 ++ p3 :: g4 ++ p4 :: g5 ++ p5 :: g6
    ∧ Forall hexPair [g1; g2; g3; g4; g5; g6]
    ∧ Forall separator [p1; p2; p3; p4; p5].

(** Twelve hexadecimal digits and nothing else. *)
Definition bareDigits (cs : list ascii) : Prop :=
  length cs = 12%nat ∧ Forall (λ c, is_hex c = true) cs.

(** A decimal octet: one or more decimal digits whose value is at most 255. *)
Definition decimalOctet (cs : list ascii) : Prop :=
  cs ≠ [] ∧ Forall (λ c, is_digit c = true) cs ∧ digits_value cs ≤ 255.

(** Four pieces with a dot between neighbours, and nothing before, between
    or after them. *)
Definition dotted (cs o1 o2 o3 o4 : list ascii) : Prop :=
  cs = o1 ++ "."%char :: o2 ++ "."%char :: o3 ++ "."%char :: o4.

(** Exactly four dot-separated decimal octets. *)
Definition dottedQuad (cs : list ascii) : Prop :=
  ∃ o1 o2 o3 o4, dotted cs o1 o2 o3 o4 ∧ Forall decimalOctet [o1; o2; o3; o4].

(** The 32-bit word [v] is [n] one-bits from the top (bit 31 downwards)
    followed by zero-bits only. *)
Definition contiguousMask (v n : Z) : Prop :=
  0 ≤ n ≤ 32 ∧ ∀ i, 0 ≤ i < 32 → Z.testbit v i = bool_decide (32 - n ≤ i).

(** The eight characters that [netmaskToCIDR] writes for one octet. *)
Definition octetBinary (v : Z) : list ascii := padStart 8 "0"%char (toString2 v).

(** Reading a string of binary digits back as a number. *)
Definition bit_value (c : ascii) : Z := if decide (c = "1"%char) then 1 else 0.

Definition bits_value (cs : list ascii) : Z :=
  foldl (λ acc c, 2 * acc + bit_value c) 0 cs.

Definition is_bit (c : ascii) : Prop := c = "0"%char ∨ c = "1"%char.

Definition octet_checked (v : Z) : bool :=
  bool_decide (length (octetBinary v) = 8%nat)
  && forallb (λ c, bool_decide (c = "0"%char) || bool_decide (c = "1"%char))
             (octetBinary v)
  && bool_decide (bits_value (octetBinary v) = v).

(** Some retained range of the matcher contains the address that the string
    spells. *)
Definition inSomeRange (m : SubnetMatcher) (ipAddress : string) : Prop :=
  ∃ ip uuid cidr,
    IPv4 ipAddress = Some ip ∧ (uuid, cidr) ∈ subnets m ∧ inRange cidr ip.

(** What one turn of the loop appended to each of the four arrays. *)
Definition grows (st st' : MigrateState) (rs : list Reservation.t)
    (us ws es : list string) : Prop :=
  st_reservations st' = st_reservations st ++ rs
  ∧ st_unmatchedIPs st' = st_unmatchedIPs st ++ us
  ∧ st_warnings st' = st_warnings st ++ ws
  ∧ st_errors st' = st_errors st ++ es.

(** The checks that a mapping passes before its subnet is looked up. *)
Definition wellFormed (mapping : StaticMapping.t) : bool :=
  truthy (StaticMapping.mac mapping) && truthy (StaticMapping.ipaddr mapping)
  && isValidMAC (StaticMapping.mac mapping)
  && isValidIP (StaticMapping.ipaddr mapping).

(** The subnet id of a successfully processed mapping. *)
Definition resolvedSubnet (this : DHCPMigrator) (mapping : StaticMapping.t)
    : option string :=
  if wellFormed mapping then
    match findSubnetForIP (subnetMatcher this) (StaticMapping.ipaddr mapping) with
    | Some uuid => if truthy uuid then Some uuid else None
    | None => None
    end
  else None.

Definition isReserved (this : DHCPMigrator) (mapping : StaticMapping.t) : bool :=
  match resolvedSubnet this mapping with Some _ => true | None => false end.

Definition isUnmatched (this : DHCPMigrator) (mapping : StaticMapping.t) : bool :=
  wellFormed mapping && negb (isReserved this mapping).

Definition hasInvalidIP (mapping : StaticMapping.t) : bool :=
  truthy (StaticMapping.mac mapping) && truthy (StaticMapping.ipaddr mapping)
  && isValidMAC (StaticMapping.mac mapping)
  && negb (isValidIP (StaticMapping.ipaddr mapping)).

(** The warning, if any, that the mapping at index [i] gives rise to. *)
Definition warningFor (this : DHCPMigrator) (i : nat) (mapping : StaticMapping.t)
    : option string :=
  if negb (truthy (StaticMapping.mac mapping) && truthy (StaticMapping.ipaddr mapping))
  then Some (missingFieldsWarning i mapping)
  else if negb (isValidMAC (StaticMapping.mac mapping))
  then Some (invalidMACWarning mapping)
  else if isUnmatched this mapping then Some (noSubnetWarning mapping)
  else None.

(** The ids of a list in the order in which each is met first: the
    iteration order of a JavaScript [Map] that was filled with them. *)
Fixpoint firstOccurrences (ids : list string) : list string :=
  match ids with
  | [] => []
  | uuid :: rest => uuid :: filter (λ other, other ≠ uuid) (firstOccurrences rest)
  end.

(** ** index.ts: the command line *)

Module MigrationConfig.
Record t := mk {
  inputFile : string;
  outputFile : string;
  dryRun : bool;
  verbose : bool
}.
End MigrationConfig.

(** [s.startsWith(searchString)] *)
Definition startsWith (s searchString : string) : bool :=
  String.prefix searchString s.

(** The [for] loop of [parseArgs]: [None] is the [return null] at an unknown
    option; otherwise the configuration and [nonFlagArgs] after the loop. *)
Fixpoint parseArgsLoop (args : list string) (config : MigrationConfig.t)
    (nonFlagArgs : list string) : option (MigrationConfig.t * list string) :=
  match args with
  | [] => Some (config, nonFlagArgs)
  | arg :: rest =>
      if bool_decide (arg = "-d") || bool_decide (arg = "--dry-run") then
        parseArgsLoop rest
          {| MigrationConfig.inputFile := MigrationConfig.inputFile config;
             MigrationConfig.outputFile := MigrationConfig.outputFile config;
             MigrationConfig.dryRun := true;
             MigrationConfig.verbose := MigrationConfig.verbose config |}
          nonFlagArgs
      else if bool_decide (arg = "-v") || bool_decide (arg = "--verbose") then
        parseArgsLoop rest
          {| MigrationConfig.inputFile := MigrationConfig.inputFile config;
             MigrationConfig.outputFile := MigrationConfig.outputFile config;
             MigrationConfig.dryRun := MigrationConfig.dryRun config;
             MigrationConfig.verbose := true |}
          nonFlagArgs
      else if negb (startsWith arg "-") then
        parseArgsLoop rest config (nonFlagArgs ++ [arg])
      else None
  end.

(** [parseArgs()], as a function of [Bun.argv.slice(2)]. *)
Definition parseArgs (args : list string) : option MigrationConfig.t :=
  if (length args =? 0)%nat || bool_decide ("-h" ∈ args)
     || bool_decide ("--help" ∈ args)
  then None
  else
    let config :=
      {| MigrationConfig.inputFile := "";
         MigrationConfig.outputFile := "new_config.xml";
         MigrationConfig.dryRun := false;
         MigrationConfig.verbose := false |} in
    match parseArgsLoop args config [] with
    | None => None
    | Some (config, nonFlagArgs) =>
        match nonFlagArgs with
        | [] => None
        | input :: others =>
            Some {| MigrationConfig.inputFile := input;
                    MigrationConfig.outputFile :=
                      match others with
                      | output :: _ => output
                      | [] => MigrationConfig.outputFile config
                      end;
                    MigrationConfig.dryRun := MigrationConfig.dryRun config;
                    MigrationConfig.verbose := MigrationConfig.verbose config |}
        end
    end.

(** ** Vocabulary of the further statements *)

(** Construction keeps the subnet record. *)
Definition builds (s : Subnet.t) : Prop :=
  is_Some (buildCIDR (Subnet.subnet s) (Subnet.netmask s)).

(** The kinds of command-line argument. *)
Definition dryRunFlag (arg : string) : Prop := arg = "-d" ∨ arg = "--dry-run".

Definition verboseFlag (arg : string) : Prop := arg = "-v" ∨ arg = "--verbose".

Definition positional (arg : string) : Prop := startsWith arg "-" = false.

Definition unknownOption (arg : string) : Prop :=
  startsWith arg "-" = true ∧ ¬ dryRunFlag arg ∧ ¬ verboseFlag arg.


Global Instance positional_dec (arg : string) : Decision (positional arg).
Proof. unfold positional. apply _. Defined.


Global Instance builds_dec (s : Subnet.t) : Decision (builds s).
Proof. unfold builds. apply _. Defined.


(** ** migrator.ts: the report *)

(** The newline character of the string literals. *)
Definition nl : string := String "010"%char "".

(** [s.repeat(n)] *)
Fixpoint repeat_string (s : string) (n : nat) : string :=
  match n with
  | O => ""
  | S n' => s +:+ repeat_string s n'
  end.

(** [array.forEach((x, i) => ...)] for a callback that updates [report]. *)
Fixpoint forEachIndexed {A} (callback : string → A → nat → string)
    (array : list A) (i : nat) (report : string) : string :=
  match array with
  | [] => report
  | x :: rest => forEachIndexed callback rest (S i) (callback report x i)
  end.

(** [subnetInfo?.field] inside a template literal. *)
Definition optionalField (field : Subnet.t → string) (subnetInfo : option Subnet.t)
    : string :=
  match subnetInfo with
  | Some s => field s
  | None => "undefined"
  end.

(** The callback of [result.reservations.forEach] in [generateReport]. *)
Definition reportReservation (this : DHCPMigrator) (report : string)
    (r : Reservation.t) (i : nat) : string :=
  let subnetInfo := getSubnetInfo (subnetMatcher this) (Reservation.subnet r) in
  let report :=
    report +:+ "  " +:+ pretty (i + 1)%nat +:+ ". " +:+ Reservation.ip_address r
    +:+ " (" +:+ Reservation.hw_address r +:+ ")" in
  let report :=
    if truthy_opt (Reservation.hostname r)
    then report +:+ " - " +:+ default "" (Reservation.hostname r)
    else report in
  report +:+ " → Subnet: " +:+ optionalField Subnet.subnet subnetInfo
  +:+ "/" +:+ optionalField Subnet.netmask subnetInfo +:+ nl.

(** The callback of the three other [forEach] loops. *)
Definition reportBullet (report item : string) : string :=
  report +:+ "  • " +:+ item +:+ nl.

Definition generateReport (this : DHCPMigrator)
    (staticMappings : list StaticMapping.t) (result : MigrationResult.t) : string :=
  let stats := getStats this staticMappings result in
  let report := nl in
  let report := report +:+ repeat_string "=" 60 +:+ nl in
  let report := report +:+ "MIGRATION REPORT" +:+ nl in
  let report := report +:+ repeat_string "=" 60 +:+ nl +:+ nl in
  let report := report +:+ "Statistics:" +:+ nl in
  let report :=
    report +:+ "  • Total ISC static mappings: "
    +:+ pretty (MigrationStats.totalStaticMappings stats) +:+ nl in
  let report :=
    report +:+ "  • Total Kea subnets: "
    +:+ pretty (MigrationStats.totalSubnets stats) +:+ nl in
  let report :=
    report +:+ "  • Successful migrations: "
    +:+ pretty (MigrationStats.successfulMigrations stats) +:+ nl in
  let report :=
    report +:+ "  • Failed migrations: "
    +:+ pretty (MigrationStats.failedMigrations stats) +:+ nl in
  let report :=
    report +:+ "  • Unmatched IPs: "
    +:+ pretty (MigrationStats.unmatchedIPs stats) +:+ nl in
  let report :=
    report +:+ "  • Warnings: " +:+ pretty (MigrationStats.warnings stats) +:+ nl in
  let report :=
    report +:+ "  • Errors: " +:+ pretty (MigrationStats.errors stats)
    +:+ nl +:+ nl in
  let report :=
    if (0 <? length (MigrationResult.reservations result))%nat then
      let report := report +:+ "Created Reservations:" +:+ nl in
      let report :=
        forEachIndexed (reportReservation this)
          (MigrationResult.reservations result) O report in
      report +:+ nl
    else report in
  let report :=
    if (0 <? length (MigrationResult.unmatchedIPs result))%nat then
      let report := report +:+ "Unmatched IPs (no subnet found):" +:+ nl in
      let report := foldl reportBullet report (MigrationResult.unmatchedIPs result) in
      report +:+ nl
    else report in
  let report :=
    if (0 <? length (MigrationResult.warnings result))%nat then
      let report := report +:+ "Warnings:" +:+ nl in
      let report := foldl reportBullet report (MigrationResult.warnings result) in
      report +:+ nl
    else report in
  let report :=
    if (0 <? length (MigrationResult.errors result))%nat then
      let report := report +:+ "Errors:" +:+ nl in
      let report := foldl reportBullet report (MigrationResult.errors result) in
      report +:+ nl
    else report in
  report +:+ repeat_string "=" 60 +:+ nl.

(** ** Vocabulary of the statements about the report *)

Definition concatStrings (pieces : list string) : string :=
  foldr String.append "" pieces.

(** A titled block of lines followed by an empty line; nothing at all when
    there is no line. *)
Definition reportSection (title : string) (lines : list string) : string :=
  match lines with
  | [] => ""
  | _ => title +:+ nl +:+ concatStrings lines +:+ nl
  end.

Definition bulletLine (item : string) : string := "  • " +:+ item +:+ nl.

(** The line of the [i]-th reservation (counted from 0), with the text that
    stands for its subnet and its netmask. *)
Definition reservationLine (i : nat) (r : Reservation.t) (subnet netmask : string)
    : string :=
  "  " +:+ pretty (i + 1)%nat +:+ ". " +:+ Reservation.ip_address r
  +:+ " (" +:+ Reservation.hw_address r +:+ ")"
  +:+ (match Reservation.hostname r with
       | Some h => if truthy h then " - " +:+ h else ""
       | None => ""
       end)
  +:+ " → Subnet: " +:+ subnet +:+ "/" +:+ netmask +:+ nl.

(** The opening of the report: title and statistics. *)
Definition reportHead (stats : MigrationStats.t) : string :=
  nl +:+ repeat_string "=" 60 +:+ nl +:+ "MIGRATION REPORT" +:+ nl
  +:+ repeat_string "=" 60 +:+ nl +:+ nl +:+ "Statistics:" +:+ nl
  +:+ "  • Total ISC static mappings: "
  +:+ pretty (MigrationStats.totalStaticMappings stats) +:+ nl
  +:+ "  • Total Kea subnets: " +:+ pretty (MigrationStats.totalSubnets stats) +:+ nl
  +:+ "  • Successful migrations: "
  +:+ pretty (MigrationStats.successfulMigrations stats) +:+ nl
  +:+ "  • Failed migrations: "
  +:+ pretty (MigrationStats.failedMigrations stats) +:+ nl
  +:+ "  • Unmatched IPs: " +:+ pretty (MigrationStats.unmatchedIPs stats) +:+ nl
  +:+ "  • Warnings: " +:+ pretty (MigrationStats.warnings stats) +:+ nl
  +:+ "  • Errors: " +:+ pretty (MigrationStats.errors stats) +:+ nl +:+ nl.


(** The text [piece] occurs in the text [whole]. *)
Definition occursIn (piece whole : string) : Prop :=
  ∃ before after, whole = before +:+ piece +:+ after.


(** * Properties *)

(** ** Runs on the inputs of the repository's tests *)

Example netmask_24 : netmaskToCIDR "255.255.255.0" = Some 24.
Proof. vm_compute. reflexivity. Qed.

Example find_test1 :
  let m := newSubnetMatcher [Subnet.mk "uuid-1" "192.168.1.0" "24";
                             Subnet.mk "uuid-2" "10.0.0.0" "255.0.0.0"] in
  findSubnetForIP m "192.168.1.254" = Some "uuid-1"
  ∧ findSubnetForIP m "10.255.255.255" = Some "uuid-2"
  ∧ findSubnetForIP m "172.16.0.1" = None.
Proof. vm_compute. done. Qed.

Example mac_tests :
  isValidMAC "00:11:22:33:44:55" = true ∧ isValidMAC "00-11-22-33-44-55" = true
  ∧ isValidMAC "001122334455" = true ∧ isValidMAC "00:11:22:33:44" = false
  ∧ isValidMAC "ZZ:11:22:33:44:55" = false ∧ isValidMAC "00:11-22:33-44:55" = true.
Proof. vm_compute. done. Qed.

Example migrate_test :
  let this := newDHCPMigrator [Subnet.mk "s1" "10.0.0.0" "8"] false in
  let ms := [StaticMapping.mk "AA:BB:CC:DD:EE:FF" "10.0.0.5" None None None None;
             StaticMapping.mk "" "10.0.0.6" None None None None;
             StaticMapping.mk "AA:BB:CC:DD:EE:FF" "172.16.0.1" (Some "h") None None None] in
  migrate (λ n, pretty n) this ms =
  MigrationResult.mk
    [Reservation.mk "0" "s1" "AA:BB:CC:DD:EE:FF" "10.0.0.5" None None] 1
    ["172.16.0.1"]
    ["Skipping mapping #2: Missing required fields (mac: , ip: 10.0.0.6)";
     "No subnet found for IP: 172.16.0.1 (MAC: AA:BB:CC:DD:EE:FF, hostname: h)"]
    [].
Proof. vm_compute. reflexivity. Qed.

(** ** Address ranges *)

Lemma testbit_above (a n i : Z) :
  0 ≤ a < 2 ^ n → 0 ≤ n ≤ i → Z.testbit a i = false.
Proof.
  intros Ha Hi. rewrite <- (Z.mod_small a (2 ^ n)) by lia.
  apply Z.mod_pow2_bits_high. lia.
Qed.

(** Masking an address with the prefix mask clears its low [32 - N] bits. *)
Lemma land_toMask (a N : Z) :
  0 ≤ a < 2 ^ 32 → 0 ≤ N ≤ 32 →
  Z.land a (toMask N) = 2 ^ (32 - N) * (a / 2 ^ (32 - N)).
Proof.
  intros Ha HN. unfold toMask.
  rewrite Z.mul_comm, <- Z.shiftr_div_pow2, <- Z.shiftl_mul_pow2 by lia.
  apply Z.bits_inj'. intros i Hi.
  rewrite Z.land_spec, !Z.shiftl_spec by lia.
  destruct (decide (i < 32 - N)) as [Hlt|Hge].
  - rewrite !(Z.testbit_neg_r _ (i - (32 - N))) by lia. apply andb_false_r.
  - rewrite Z.shiftr_spec by lia.
    replace (i - (32 - N) + (32 - N)) with i by lia.
    destruct (decide (i < 32)) as [Hi32|Hi32].
    + rewrite Z.ones_spec_low by lia. apply andb_true_r.
    + rewrite (testbit_above a 32 i) by lia. done.
Qed.

Lemma lor_ones_aligned (q k : Z) :
  0 ≤ k → Z.lor (2 ^ k * q) (Z.ones k) = 2 ^ k * q + 2 ^ k - 1.
Proof.
  intros Hk.
  assert (Hdisj : Z.land (2 ^ k * q) (Z.ones k) = 0).
  { rewrite Z.land_ones by lia. rewrite Z.mul_comm. apply Z.mod_mul. lia. }
  rewrite <- Z.lxor_lor by done. rewrite <- Z.add_nocarry_lxor by done.
  rewrite Z.ones_equiv. lia.
Qed.

Section range_facts.
Variable r : IPv4CidrRange.
Hypothesis Hip : 0 ≤ ipv4 r < 2 ^ 32.
Hypothesis Hprefix : 0 ≤ cidrPrefix r ≤ 32.

Lemma getFirst_eq :
  getFirst r = 2 ^ (32 - cidrPrefix r) * (ipv4 r / 2 ^ (32 - cidrPrefix r)).
Proof using Hip Hprefix. unfold getFirst. by apply land_toMask. Qed.

Lemma getLast_eq : getLast r = getFirst r + 2 ^ (32 - cidrPrefix r) - 1.
Proof using Hip Hprefix.
  unfold getLast. rewrite getFirst_eq. apply lor_ones_aligned. lia.
Qed.

Lemma range_size : getLast r - getFirst r + 1 = getSize r.
Proof using Hip Hprefix. rewrite getLast_eq. unfold getSize. lia. Qed.

Lemma base_in_range : getFirst r ≤ ipv4 r ≤ getLast r.
Proof using Hip Hprefix.
  rewrite getLast_eq, getFirst_eq.
  assert (0 < 2 ^ (32 - cidrPrefix r)) by (apply Z.pow_pos_nonneg; lia).
  pose proof (Z.mod_pos_bound (ipv4 r) (2 ^ (32 - cidrPrefix r))).
  pose proof (Z.div_mod (ipv4 r) (2 ^ (32 - cidrPrefix r))).
  lia.
Qed.

Lemma range_bounds : 0 ≤ getFirst r ∧ getLast r < 2 ^ 32.
Proof using Hip Hprefix.
  rewrite getLast_eq, getFirst_eq.
  set (k := 32 - cidrPrefix r).
  assert (Hk : 0 < 2 ^ k) by (apply Z.pow_pos_nonneg; lia).
  assert (Hsplit : 2 ^ 32 = 2 ^ k * 2 ^ cidrPrefix r).
  { rewrite <- Z.pow_add_r by lia. f_equal. lia. }
  assert (0 ≤ ipv4 r / 2 ^ k) by (apply Z.div_pos; lia).
  assert (ipv4 r / 2 ^ k < 2 ^ cidrPrefix r).
  { apply Z.div_lt_upper_bound; lia. }
  nia.
Qed.

Lemma contains_iff (ip : Z) :
  contains r ip = true ↔ getFirst r ≤ ip ≤ getLast r.
Proof. unfold contains. rewrite andb_true_iff, !Z.leb_le. done. Qed.

Lemma host_route (ip : Z) :
  cidrPrefix r = 32 → (contains r ip = true ↔ ip = ipv4 r).
Proof using Hip Hprefix.
  intros H32. rewrite contains_iff, getLast_eq, getFirst_eq, H32.
  change (2 ^ (32 - 32)) with 1. rewrite Z.div_1_r. lia.
Qed.
End range_facts.

(** ** Decimal strings and addresses *)

Lemma is_digit_value (c : ascii) : is_digit c = true → 0 ≤ digit_value c ≤ 9.
Proof.
  unfold is_digit, digit_value. rewrite andb_true_iff, !Nat.leb_le. lia.
Qed.

Lemma digits_value_snoc (cs : list ascii) (c : ascii) :
  digits_value (cs ++ [c]) = 10 * digits_value cs + digit_value c.
Proof. unfold digits_value. by rewrite foldl_app. Qed.

Lemma digits_value_nonneg (cs : list ascii) :
  forallb is_digit cs = true → 0 ≤ digits_value cs.
Proof.
  induction cs as [|c cs IH] using rev_ind; [done|].
  rewrite forallb_app, andb_true_iff. intros [Hcs Hc]. simpl in Hc.
  rewrite andb_true_r in Hc. rewrite digits_value_snoc.
  pose proof (is_digit_value c Hc). specialize (IH Hcs). lia.
Qed.

Lemma parse_octet_Some (cs : list ascii) (v : Z) :
  parse_octet cs = Some v ↔
  forallb is_digit cs = true ∧ cs ≠ [] ∧ digits_value cs ≤ 255 ∧ v = digits_value cs.
Proof.
  unfold parse_octet.
  destruct (forallb is_digit cs) eqn:Hd; simpl;
    [|split; [done|by intros (? & _)]].
  case_bool_decide as Hnil; simpl; [split; [done|by intros (_ & ? & _)]|].
  destruct (digits_value cs <=? 255) eqn:Hle.
  - apply Z.leb_le in Hle.
    split; [by intros [= <-]|by intros (_ & _ & _ & ->)].
  - apply Z.leb_gt in Hle. split; [done|]. intros (_ & _ & ? & _). lia.
Qed.

Lemma parse_octet_range (cs : list ascii) (v : Z) :
  parse_octet cs = Some v → 0 ≤ v ≤ 255.
Proof.
  rewrite parse_octet_Some. intros (Hd & _ & Hle & ->).
  pose proof (digits_value_nonneg cs Hd). lia.
Qed.

Lemma IPv4_range (s : string) (a : Z) : IPv4 s = Some a → 0 ≤ a < 2 ^ 32.
Proof.
  unfold IPv4. intros H.
  destruct (split_on "." (chars s)) as [|o1 [|o2 [|o3 [|o4 [|]]]]]; try done.
  destruct (parse_octet o1) as [v1|] eqn:H1; [|done].
  destruct (parse_octet o2) as [v2|] eqn:H2; [|done].
  destruct (parse_octet o3) as [v3|] eqn:H3; [|done].
  destruct (parse_octet o4) as [v4|] eqn:H4; [|done].
  simpl in H. injection H as <-.
  apply parse_octet_range in H1, H2, H3, H4.
  unfold ipv4_value. change (2 ^ 32) with 4294967296. lia.
Qed.

Lemma fromCidr_Some (subnet : string) (prefix : Z) (r : IPv4CidrRange) :
  fromCidr subnet prefix = Some r →
  IPv4 subnet = Some (ipv4 r) ∧ cidrPrefix r = prefix ∧ 0 ≤ prefix ≤ 32.
Proof.
  unfold fromCidr. destruct (IPv4 subnet) as [a|]; [|done]. simpl.
  destruct (0 <=? prefix) eqn:H0; destruct (prefix <=? 32) eqn:H32; try done.
  simpl. intros [= <-]. simpl. apply Z.leb_le in H0, H32. done.
Qed.

Lemma buildCIDR_Some (subnet netmask : string) (r : IPv4CidrRange) :
  buildCIDR subnet netmask = Some r →
  IPv4 subnet = Some (ipv4 r) ∧ 0 ≤ ipv4 r < 2 ^ 32 ∧ 0 ≤ cidrPrefix r ≤ 32.
Proof.
  unfold buildCIDR. destruct (IPv4 subnet) as [a|] eqn:Ha; [|done].
  intros H.
  assert (∃ p, fromCidr subnet p = Some r) as [p Hp].
  { repeat case_match; try done; eauto. }
  apply fromCidr_Some in Hp as (Hr & Hp & Hrange).
  rewrite Ha in Hr. injection Hr as ->.
  split; [done|]. split; [by eapply IPv4_range|lia].
Qed.

(** ** The construction of the matcher *)

Section js_map_facts.
Context {K V : Type} `{EqDecision K}.
Implicit Types m : Map K V.

Lemma Map_set_fresh m k v : k ∉ m.*1 → Map_set m k v = m ++ [(k, v)].
Proof.
  induction m as [|[k' v'] m IH]; [done|]. simpl.
  rewrite not_elem_of_cons. intros [Hne Hnotin].
  rewrite decide_False by done. by rewrite IH.
Qed.

Lemma Map_set_keys_present m k v : k ∈ m.*1 → (Map_set m k v).*1 = m.*1.
Proof.
  induction m as [|[k' v'] m IH]; csimpl.
  - by intros ?%elem_of_nil.
  - case_decide as Hk; csimpl; [by subst|].
    rewrite elem_of_cons. intros [->|Hin]; [done|]. f_equal. by apply IH.
Qed.

Lemma Map_set_keys m k v :
  (Map_set m k v).*1 = if decide (k ∈ m.*1) then m.*1 else m.*1 ++ [k].
Proof.
  case_decide as Hk.
  - by apply Map_set_keys_present.
  - rewrite Map_set_fresh by done. by rewrite fmap_app.
Qed.

Lemma Map_set_elem m k v k0 v0 :
  (k0, v0) ∈ Map_set m k v → (k0, v0) ∈ m ∨ (k0, v0) = (k, v).
Proof.
  induction m as [|[k' v'] m IH]; simpl.
  - rewrite list_elem_of_singleton. auto.
  - case_decide; rewrite !elem_of_cons.
    + intros [Heq|Hin]; auto.
    + intros [Heq|Hin]; [auto|]. apply IH in Hin as [Hin|Hin]; auto.
Qed.

End js_map_facts.

Lemma retainedRanges_cons (s : Subnet.t) (l : list Subnet.t) :
  retainedRanges (s :: l) =
  match buildCIDR (Subnet.subnet s) (Subnet.netmask s) with
  | Some cidr => (Subnet.uuid s, cidr) :: retainedRanges l
  | None => retainedRanges l
  end.
Proof. unfold retainedRanges. simpl. by destruct (buildCIDR _ _). Qed.

Lemma retainedRanges_app (l1 l2 : list Subnet.t) :
  retainedRanges (l1 ++ l2) = retainedRanges l1 ++ retainedRanges l2.
Proof. apply omap_app. Qed.

Lemma elem_of_retainedRanges (l : list Subnet.t) (u : string) (r : IPv4CidrRange) :
  (u, r) ∈ retainedRanges l ↔
  ∃ s, s ∈ l ∧ Subnet.uuid s = u ∧ buildCIDR (Subnet.subnet s) (Subnet.netmask s) = Some r.
Proof.
  unfold retainedRanges. rewrite list_elem_of_omap. split.
  - intros (s & Hs & Hr). exists s. split; [done|].
    destruct (buildCIDR _ _) as [r'|]; simpl in Hr; [|done]. by injection Hr as <- <-.
  - intros (s & Hs & <- & Hr). exists s. by rewrite Hr.
Qed.

(** With pairwise distinct ids every [set] appends, so the map lists the
    retained ranges in input order. *)
Lemma subnets_buildSubnetMap (m : SubnetMatcher) (l : list Subnet.t) :
  NoDup ((subnets m).*1 ++ (retainedRanges l).*1) →
  subnets (buildSubnetMap m l) = subnets m ++ retainedRanges l.
Proof.
  revert m. induction l as [|s l IH]; intros m Hnd.
  - simpl. by rewrite app_nil_r.
  - change (buildSubnetMap m (s :: l)) with (buildSubnetMap (addSubnet m s) l).
    rewrite retainedRanges_cons in Hnd |- *. unfold addSubnet.
    destruct (buildCIDR _ _) as [cidr|]; [|by apply IH].
    simpl in Hnd. apply NoDup_app in Hnd as (Hm & Hdisj & Hl).
    apply NoDup_cons in Hl as [Hs Hl].
    assert (Hfresh : Subnet.uuid s ∉ (subnets m).*1).
    { intros Hin. apply (Hdisj _ Hin). left. }
    rewrite IH; simpl; rewrite Map_set_fresh by done.
    + by rewrite <- app_assoc.
    + rewrite fmap_app. simpl. rewrite <- app_assoc. simpl.
      apply NoDup_app. split_and!; [done| |by apply NoDup_cons].
      intros x Hx. by apply Hdisj.
Qed.

(** Whatever the ids, an entry of the map comes from a subnet of the input. *)
Lemma subnets_origin (m : SubnetMatcher) (l : list Subnet.t) u r :
  (u, r) ∈ subnets (buildSubnetMap m l) →
  (u, r) ∈ subnets m ∨ (u, r) ∈ retainedRanges l.
Proof.
  revert m. induction l as [|s l IH]; intros m; [simpl; auto|].
  change (buildSubnetMap m (s :: l)) with (buildSubnetMap (addSubnet m s) l).
  intros Hin. apply IH in Hin. rewrite retainedRanges_cons.
  unfold addSubnet in Hin.
  destruct (buildCIDR _ _) as [cidr|]; [|done]. simpl in Hin.
  destruct Hin as [Hin|Hin]; [|right; by right].
  apply Map_set_elem in Hin as [Hin|Hin]; [by left|].
  right. rewrite Hin. left.
Qed.

Lemma filter_all {A} (P : A → Prop) `{!∀ x, Decision (P x)} (l : list A) :
  Forall P l → filter P l = l.
Proof.
  induction 1 as [|x l Hx _ IH]; [done|].
  rewrite filter_cons_True by done. by rewrite IH.
Qed.

(** Whatever the ids, the map iterates over them in the order in which each
    was added first. *)
Lemma subnets_keys (m : SubnetMatcher) (l : list Subnet.t) :
  (subnets (buildSubnetMap m l)).*1 =
  (subnets m).*1 ++ filter (λ uuid, uuid ∉ (subnets m).*1)
                           (firstOccurrences (retainedRanges l).*1).
Proof.
  revert m. induction l as [|s l IH]; intros m.
  - simpl. by rewrite app_nil_r.
  - change (buildSubnetMap m (s :: l)) with (buildSubnetMap (addSubnet m s) l).
    rewrite IH, retainedRanges_cons. unfold addSubnet.
    destruct (buildCIDR _ _) as [cidr|]; [|done].
    cbn [subnets fmap list_fmap fst firstOccurrences]. rewrite Map_set_keys.
    set (rest := firstOccurrences (retainedRanges l).*1).
    case_decide as Hk.
    + rewrite filter_cons_False by tauto. f_equal.
      rewrite list_filter_filter. apply list_filter_iff.
      intros uuid. split; [|by intros [? _]].
      intros Hnew. split; [done|]. by intros ->.
    + rewrite filter_cons_True by done. rewrite <- app_assoc. simpl. do 2 f_equal.
      rewrite list_filter_filter. apply list_filter_iff.
      intros uuid. rewrite not_elem_of_app, list_elem_of_singleton. tauto.
Qed.

(** The two maps of a matcher always hold the same ids in the same order. *)
Lemma buildSubnetMap_same_keys (m : SubnetMatcher) (l : list Subnet.t) :
  (subnets m).*1 = (subnetMetadata m).*1 →
  (subnets (buildSubnetMap m l)).*1 = (subnetMetadata (buildSubnetMap m l)).*1.
Proof.
  revert m. induction l as [|s l IH]; intros m Hm; simpl; [done|].
  apply IH. unfold addSubnet. destruct (buildCIDR _ _) as [cidr|]; [|done]. simpl.
  destruct (decide (Subnet.uuid s ∈ (subnets m).*1)) as [Hin|Hnotin].
  - rewrite !Map_set_keys_present; [done| |done]. by rewrite <- Hm.
  - rewrite !Map_set_fresh; [|by rewrite <- Hm|done].
    rewrite !fmap_app. by rewrite Hm.
Qed.

Lemma retained_range_wf (l : list Subnet.t) u r :
  (u, r) ∈ subnets (newSubnetMatcher l) →
  0 ≤ ipv4 r < 2 ^ 32 ∧ 0 ≤ cidrPrefix r ≤ 32.
Proof.
  intros Hin. apply subnets_origin in Hin as [Hin|Hin].
  - by apply elem_of_nil in Hin.
  - apply elem_of_retainedRanges in Hin as (s & _ & _ & Hb).
    by apply buildCIDR_Some in Hb as (_ & ? & ?).
Qed.

(** ** The search *)

Lemma firstContaining_app (pre es : Map string IPv4CidrRange) (ip : Z) :
  Forall (λ e, contains e.2 ip = false) pre →
  firstContaining (pre ++ es) ip = firstContaining es ip.
Proof.
  induction 1 as [|[u r] pre Hr _ IH]; [done|]. simpl in *. by rewrite Hr.
Qed.

Lemma firstContaining_None (es : Map string IPv4CidrRange) (ip : Z) :
  firstContaining es ip = None ↔ Forall (λ e, contains e.2 ip = false) es.
Proof.
  induction es as [|[u r] es IH]; simpl.
  - split; [constructor|done].
  - rewrite Forall_cons, <- IH. simpl. destruct (contains r ip).
    + split; [done|by intros [? _]].
    + split; [done|by intros [_ ?]].
Qed.

Lemma firstContaining_Some (es : Map string IPv4CidrRange) (ip : Z) (u : string) :
  firstContaining es ip = Some u ↔
  ∃ pre r post, es = pre ++ (u, r) :: post ∧ contains r ip = true
                ∧ Forall (λ e, contains e.2 ip = false) pre.
Proof.
  split.
  - induction es as [|[u' r'] es IH]; simpl; [done|].
    destruct (contains r' ip) eqn:Hr.
    + intros [= ->]. by exists [], r', es.
    + intros (pre & r & post & -> & ? & ?)%IH.
      exists ((u', r') :: pre), r, post. split_and!; [done..|by constructor].
  - intros (pre & r & post & -> & Hr & Hpre).
    rewrite firstContaining_app by done. simpl. by rewrite Hr.
Qed.

Lemma inRange_contains (r : IPv4CidrRange) (ip : Z) :
  inRange r ip ↔ contains r ip = true.
Proof. unfold inRange, contains. rewrite andb_true_iff, !Z.leb_le. done. Qed.

Lemma not_inRange_contains (r : IPv4CidrRange) (ip : Z) :
  ¬ inRange r ip ↔ contains r ip = false.
Proof. rewrite inRange_contains. by destruct (contains r ip). Qed.

(** C1. [findSubnetForIP] tests the retained ranges in the iteration order
    of the map, which lists the ids in the order in which the subnets were
    added at construction, and answers with the id of the first range that
    contains the address, however many later ranges contain it too.  With
    pairwise distinct ids (ids are unique in the data model) the map is the
    list of the retained ranges in input order, so the answer is the id of
    the first subnet of the input whose range contains the address. *)
Theorem findSubnetForIP_first_match (l : list Subnet.t)
    (ipAddress : string) (ip : Z) :
  IPv4 ipAddress = Some ip →
  let m := newSubnetMatcher l in
  (subnets m).*1 = firstOccurrences (retainedRanges l).*1
  ∧ (∀ before uuid cidr after,
       subnets m = before ++ (uuid, cidr) :: after →
       inRange cidr ip →
       (∀ entry, entry ∈ before → ¬ inRange entry.2 ip) →
       findSubnetForIP m ipAddress = Some uuid)
  ∧ (∀ uuid, findSubnetForIP m ipAddress = Some uuid →
       ∃ before cidr after,
         subnets m = before ++ (uuid, cidr) :: after ∧ inRange cidr ip
         ∧ ∀ entry, entry ∈ before → ¬ inRange entry.2 ip)
  ∧ (NoDup (retainedRanges l).*1 →
     subnets m = retainedRanges l
     ∧ ∀ (pre post : list Subnet.t) (s : Subnet.t) (cidr : IPv4CidrRange),
         l = pre ++ s :: post →
         buildCIDR (Subnet.subnet s) (Subnet.netmask s) = Some cidr →
         inRange cidr ip →
         (∀ s' cidr', s' ∈ pre →
            buildCIDR (Subnet.subnet s') (Subnet.netmask s') = Some cidr' →
            ¬ inRange cidr' ip) →
         findSubnetForIP m ipAddress = Some (Subnet.uuid s)).
Proof.
  intros Hip m. unfold findSubnetForIP. rewrite Hip.
  split_and!.
  - unfold m, newSubnetMatcher. rewrite subnets_keys. simpl.
    apply filter_all. apply Forall_forall.
    intros uuid _. apply not_elem_of_nil.
  - intros before uuid cidr after -> Hin Hbefore.
    apply firstContaining_Some. exists before, cidr, after.
    split_and!; [done|by apply inRange_contains|].
    apply Forall_forall. intros entry Hentry.
    by apply not_inRange_contains, Hbefore.
  - intros uuid (before & cidr & after & Hm & Hin & Hbefore)%firstContaining_Some.
    exists before, cidr, after. split_and!; [done|by apply inRange_contains|].
    rewrite Forall_forall in Hbefore.
    intros entry Hentry. by apply not_inRange_contains, Hbefore.
  - intros Hnd.
    assert (Hentries : subnets m = retainedRanges l).
    { unfold m, newSubnetMatcher. by rewrite subnets_buildSubnetMap. }
    split; [done|].
    intros pre post s cidr -> Hs Hin Hpre.
    rewrite Hentries, retainedRanges_app, retainedRanges_cons, Hs.
    rewrite firstContaining_app.
    + simpl. apply inRange_contains in Hin. by rewrite Hin.
    + apply Forall_forall. intros [u r] Hur. simpl.
      apply elem_of_retainedRanges in Hur as (s' & Hs' & _ & Hb).
      apply not_inRange_contains. by eapply Hpre.
Qed.

Lemma findSubnetForIP_first_match_witness :
  findSubnetForIP
    (newSubnetMatcher [Subnet.mk "wide" "10.0.0.0" "8";
                       Subnet.mk "narrow" "10.0.0.0" "255.255.0.0"])
    "10.0.0.5" = Some "wide".
Proof.
  refine (proj2 (proj2 (proj2 (proj2
            (findSubnetForIP_first_match
               [Subnet.mk "wide" "10.0.0.0" "8";
                Subnet.mk "narrow" "10.0.0.0" "255.255.0.0"]
               "10.0.0.5" 167772165 eq_refl))) _)
            [] [Subnet.mk "narrow" "10.0.0.0" "255.255.0.0"]
            (Subnet.mk "wide" "10.0.0.0" "8")
            {| ipv4 := 167772160; cidrPrefix := 8 |} _ _ _ _).
  - apply (bool_decide_unpack _). vm_compute. exact I.
  - reflexivity.
  - vm_compute. reflexivity.
  - unfold inRange. vm_compute. split; discriminate.
  - intros s' cidr' Hs'. by apply elem_of_nil in Hs'.
Defined.

(** C3. For a valid address, [findSubnetForIP] answers with an id exactly
    when some retained range contains the address in the closed interval
    from its first to its last address, and the id it answers with is the id
    of such a range.  A retained range has a prefix N in 0..32, holds
    2^(32-N) addresses, contains both its first (network) and its last
    (broadcast) address, and for N = 32 contains the host address alone. *)
Theorem findSubnetForIP_closed_interval (l : list Subnet.t)
    (ipAddress : string) (ip : Z) :
  IPv4 ipAddress = Some ip →
  let m := newSubnetMatcher l in
  (∀ uuid, findSubnetForIP m ipAddress = Some uuid →
           ∃ cidr, (uuid, cidr) ∈ subnets m ∧ inRange cidr ip)
  ∧ (is_Some (findSubnetForIP m ipAddress) ↔
     ∃ uuid cidr, (uuid, cidr) ∈ subnets m ∧ inRange cidr ip)
  ∧ (∀ uuid cidr, (uuid, cidr) ∈ subnets m →
       0 ≤ cidrPrefix cidr ≤ 32
       ∧ getSize cidr = 2 ^ (32 - cidrPrefix cidr)
       ∧ getLast cidr - getFirst cidr + 1 = getSize cidr
       ∧ inRange cidr (getFirst cidr) ∧ inRange cidr (getLast cidr)
       ∧ (cidrPrefix cidr = 32 → (inRange cidr ip ↔ ip = ipv4 cidr))).
Proof.
  intros Hip m. unfold findSubnetForIP. rewrite Hip.
  assert (Hsome : ∀ uuid, firstContaining (subnets m) ip = Some uuid →
                          ∃ cidr, (uuid, cidr) ∈ subnets m ∧ inRange cidr ip).
  { intros uuid (pre & r & post & Hm & Hr & _)%firstContaining_Some.
    exists r. split; [|by apply inRange_contains].
    rewrite Hm. apply elem_of_app. right. left. }
  split_and!.
  - done.
  - split.
    + intros [uuid Hu]. exists uuid. by apply Hsome.
    + intros (uuid & cidr & Hin & Hr).
      destruct (firstContaining (subnets m) ip) eqn:Hnone; [done|].
      rewrite firstContaining_None, Forall_forall in Hnone.
      apply Hnone in Hin. simpl in Hin.
      apply inRange_contains in Hr. congruence.
  - intros uuid cidr Hin.
    apply retained_range_wf in Hin as [Ha HN].
    pose proof (range_size cidr Ha HN) as Hsize.
    pose proof (getLast_eq cidr Ha HN) as Hlast.
    assert (0 < 2 ^ (32 - cidrPrefix cidr)) by (apply Z.pow_pos_nonneg; lia).
    unfold getSize in *. split_and!; [lia..|done|by apply Hsize| | |].
    + unfold inRange. lia.
    + unfold inRange. lia.
    + intros H32. rewrite inRange_contains. by apply host_route.
Qed.

Lemma findSubnetForIP_closed_interval_witness :
  let m := newSubnetMatcher [Subnet.mk "uuid-1" "192.168.1.100" "32"] in
  is_Some (findSubnetForIP m "192.168.1.100") ↔
  ∃ uuid cidr, (uuid, cidr) ∈ subnets m ∧ inRange cidr 3232235876.
Proof.
  exact (proj1 (proj2 (findSubnetForIP_closed_interval
                         [Subnet.mk "uuid-1" "192.168.1.100" "32"]
                         "192.168.1.100" 3232235876 eq_refl))).
Defined.

Example host_route_test :
  let m := newSubnetMatcher [Subnet.mk "uuid-1" "192.168.1.100" "32"] in
  findSubnetForIP m "192.168.1.100" = Some "uuid-1"
  ∧ findSubnetForIP m "192.168.1.101" = None
  ∧ findSubnetForIP m "192.168.1.99" = None.
Proof. vm_compute. done. Qed.

(** A repeated id does not add an entry: the map keeps the position of the
    first record and the range of the last one. *)
Example repeated_id :
  subnets (newSubnetMatcher [Subnet.mk "a" "10.0.0.0" "8";
                             Subnet.mk "b" "10.1.0.0" "16";
                             Subnet.mk "a" "10.1.0.0" "24"])
  = [("a", {| ipv4 := 167837696; cidrPrefix := 24 |});
     ("b", {| ipv4 := 167837696; cidrPrefix := 16 |})].
Proof. vm_compute. reflexivity. Qed.

(** ** Hardware addresses *)

(** [is_hex] is the class of the decimal digits and the letters a to f in
    either case. *)
Lemma is_hex_spec (c : ascii) :
  is_hex c = bool_decide (c ∈ chars "0123456789abcdefABCDEF").
Proof. destruct c as [[] [] [] [] [] [] [] []]; vm_compute; reflexivity. Qed.

Lemma is_sep_spec (c : ascii) : is_sep c = true ↔ separator c.
Proof.
  unfold is_sep, separator. rewrite orb_true_iff, !bool_decide_eq_true. done.
Qed.

(** Closes [Forall P [x1; ...; xn]] from the hypotheses. *)
Ltac Forall_list :=
  repeat first [apply Forall_nil_2 | apply Forall_cons_2; [done|]].

Lemma eat_hex2_Some (cs rest : list ascii) :
  eat_hex2 cs = Some rest ↔ ∃ g, hexPair g ∧ cs = g ++ rest.
Proof.
  unfold eat_hex2, hexPair. split.
  - destruct cs as [|a [|b cs]]; try done.
    destruct (is_hex a) eqn:Ha, (is_hex b) eqn:Hb; try done.
    simpl. intros [= ->]. exists [a; b]. eauto 10.
  - intros (g & (a & b & -> & Ha & Hb) & ->). simpl. by rewrite Ha, Hb.
Qed.

Lemma eat_sep_Some (cs rest : list ascii) :
  eat_sep cs = Some rest ↔ ∃ p, separator p ∧ cs = p :: rest.
Proof.
  unfold eat_sep. split.
  - destruct cs as [|c cs]; [done|].
    destruct (is_sep c) eqn:Hc; [|done]. intros [= ->].
    exists c. by rewrite <- is_sep_spec.
  - intros (p & Hp%is_sep_spec & ->). by rewrite Hp.
Qed.

Lemma eat_groups_S (n : nat) (cs rest : list ascii) :
  eat_groups (S n) cs = Some rest ↔
  ∃ g p cs', hexPair g ∧ separator p ∧ cs = g ++ p :: cs'
             ∧ eat_groups n cs' = Some rest.
Proof.
  simpl. rewrite bind_Some. split.
  - intros (r1 & (g & Hg & ->)%eat_hex2_Some & (r2 & (p & Hp & ->)%eat_sep_Some & Hn)%bind_Some).
    by exists g, p, r2.
  - intros (g & p & cs' & Hg & Hp & -> & Hn).
    exists (p :: cs'). split; [apply eat_hex2_Some; eauto|].
    apply bind_Some. exists cs'. split; [apply eat_sep_Some; eauto|done].
Qed.

Lemma mac_pattern_groups_spec (s : string) :
  mac_pattern_groups s = true ↔ separatedGroups (chars s).
Proof.
  unfold mac_pattern_groups, separatedGroups.
  transitivity (eat_groups 5 (chars s) ≫= eat_hex2 = Some []).
  { destruct (eat_groups 5 (chars s) ≫= eat_hex2) as [[|]|]; naive_solver. }
  rewrite bind_Some. split.
  - intros (r & Hgroups & (g6 & Hg6 & ->)%eat_hex2_Some).
    apply eat_groups_S in Hgroups as (g1 & p1 & c1 & Hg1 & Hp1 & -> & Hgroups).
    apply eat_groups_S in Hgroups as (g2 & p2 & c2 & Hg2 & Hp2 & -> & Hgroups).
    apply eat_groups_S in Hgroups as (g3 & p3 & c3 & Hg3 & Hp3 & -> & Hgroups).
    apply eat_groups_S in Hgroups as (g4 & p4 & c4 & Hg4 & Hp4 & -> & Hgroups).
    apply eat_groups_S in Hgroups as (g5 & p5 & c5 & Hg5 & Hp5 & -> & Hgroups).
    simpl in Hgroups. injection Hgroups as ->.
    exists g1, g2, g3, g4, g5, g6, p1, p2, p3, p4, p5.
    rewrite app_nil_r. split; [done|]. split; Forall_list.
  - intros (g1 & g2 & g3 & g4 & g5 & g6 & p1 & p2 & p3 & p4 & p5 & -> & Hg & Hp).
    repeat match goal with
           | H : Forall _ (_ :: _) |- _ => apply Forall_cons in H as [? H]
           end.
    exists g6. split; [|apply eat_hex2_Some; exists g6; by rewrite app_nil_r].
    do 5 (apply eat_groups_S; eexists _, _, _;
          split_and!; [| |reflexivity|]; [done|done|]).
    done.
Qed.

Lemma mac_pattern_bare_spec (s : string) :
  mac_pattern_bare s = true ↔ bareDigits (chars s).
Proof.
  unfold mac_pattern_bare, bareDigits.
  rewrite andb_true_iff, Nat.eqb_eq, forallb_forall, Forall_forall.
  by setoid_rewrite list_elem_of_In.
Qed.

Lemma isValidMAC_spec (s : string) :
  isValidMAC s = true ↔ separatedGroups (chars s) ∨ bareDigits (chars s).
Proof.
  unfold isValidMAC. simpl. rewrite orb_false_r, orb_true_iff.
  by rewrite mac_pattern_groups_spec, mac_pattern_bare_spec.
Qed.

(** C4. The validator accepts a string exactly when it is six groups of two
    hexadecimal digits separated by colons or dashes, or twelve hexadecimal
    digits, where a hexadecimal digit is one of 0-9, a-f, A-F; it accepts
    00:11:22:33:44:55, 00-11-22-33-44-55 and 001122334455 and rejects
    00:11:22:33:44 and ZZ:11:22:33:44:55. *)
Theorem isValidMAC_accepts_exactly :
  (∀ s : string,
     isValidMAC s = true ↔ separatedGroups (chars s) ∨ bareDigits (chars s))
  ∧ (∀ c : ascii, is_hex c = true ↔ c ∈ chars "0123456789abcdefABCDEF")
  ∧ isValidMAC "00:11:22:33:44:55" = true
  ∧ isValidMAC "00-11-22-33-44-55" = true
  ∧ isValidMAC "001122334455" = true
  ∧ isValidMAC "00:11:22:33:44" = false
  ∧ isValidMAC "ZZ:11:22:33:44:55" = false.
Proof.
  split_and!; try (vm_compute; reflexivity).
  - apply isValidMAC_spec.
  - intros c. by rewrite is_hex_spec, bool_decide_eq_true.
Qed.

(** C10. Each of the five separators is chosen on its own: whatever mix of
    colons and dashes stands between six groups of two hexadecimal digits,
    the validator accepts the string, for instance 00:11-22:33-44:55. *)
Theorem isValidMAC_mixed_separators (g1 g2 g3 g4 g5 g6 : list ascii)
    (p1 p2 p3 p4 p5 : ascii) :
  Forall hexPair [g1; g2; g3; g4; g5; g6] →
  Forall separator [p1; p2; p3; p4; p5] →
  isValidMAC (string_of_list_ascii
                (g1 ++ p1 :: g2 ++ p2 :: g3 ++ p3 :: g4 ++ p4 :: g5 ++ p5 :: g6))
  = true.
Proof.
  intros Hg Hp. apply isValidMAC_spec. left.
  unfold chars. rewrite list_ascii_of_string_of_list_ascii.
  by exists g1, g2, g3, g4, g5, g6, p1, p2, p3, p4, p5.
Qed.

Lemma isValidMAC_mixed_separators_witness :
  isValidMAC "00:11-22:33-44:55" = true.
Proof.
  refine (isValidMAC_mixed_separators
            (chars "00") (chars "11") (chars "22") (chars "33") (chars "44")
            (chars "55") ":" "-" ":" "-" ":" _ _).
  - repeat first [apply Forall_nil_2 | apply Forall_cons_2];
      (eexists _, _; split_and!; [reflexivity|vm_compute; reflexivity..]).
  - repeat first [apply Forall_nil_2 | apply Forall_cons_2];
      ((by left) || (by right)).
Defined.

(** ** Splitting at dots *)

Lemma split_on_cons_sep (sep : ascii) (cs : list ascii) :
  split_on sep (sep :: cs) = [] :: split_on sep cs.
Proof. simpl. by rewrite decide_True. Qed.

Lemma split_on_not_nil (sep : ascii) (cs : list ascii) : split_on sep cs ≠ [].
Proof.
  induction cs as [|c cs IH]; simpl; [done|].
  case_decide; [done|]. by destruct (split_on sep cs).
Qed.

Lemma split_on_app (sep : ascii) (p rest : list ascii) :
  sep ∉ p → split_on sep (p ++ sep :: rest) = p :: split_on sep rest.
Proof.
  induction p as [|c p IH]; intros Hp.
  - apply split_on_cons_sep.
  - apply not_elem_of_cons in Hp as [Hc Hp]. simpl.
    rewrite decide_False by done. by rewrite IH.
Qed.

Lemma split_on_single (sep : ascii) (p : list ascii) :
  sep ∉ p → split_on sep p = [p].
Proof.
  induction p as [|c p IH]; intros Hp; [done|].
  apply not_elem_of_cons in Hp as [Hc Hp]. simpl.
  rewrite decide_False by done. by rewrite IH.
Qed.

Lemma split_on_inv (sep : ascii) (cs p : list ascii) (ps : list (list ascii)) :
  split_on sep cs = p :: ps →
  (sep ∉ p) ∧ (ps = [] ∧ cs = p ∨
             ∃ rest, cs = p ++ sep :: rest ∧ split_on sep rest = ps).
Proof.
  revert p ps. induction cs as [|c cs IH]; intros p ps; simpl.
  - intros [= <- <-]. split; [apply not_elem_of_nil|by left].
  - case_decide as Hc.
    + intros [= <- <-]. subst c. split; [apply not_elem_of_nil|].
      right. by exists cs.
    + destruct (split_on sep cs) as [|q qs] eqn:Hsplit.
      { by apply split_on_not_nil in Hsplit. }
      intros [= <- <-].
      destruct (IH q qs eq_refl) as [Hq Hcases].
      split; [by apply not_elem_of_cons|].
      destruct Hcases as [[-> ->]|(rest & -> & Hrest)]; [by left|].
      right. by exists rest.
Qed.

Lemma split_on_four (sep : ascii) (cs o1 o2 o3 o4 : list ascii) :
  split_on sep cs = [o1; o2; o3; o4] ↔
  cs = o1 ++ sep :: o2 ++ sep :: o3 ++ sep :: o4
  ∧ (sep ∉ o1) ∧ (sep ∉ o2) ∧ (sep ∉ o3) ∧ (sep ∉ o4).
Proof.
  split.
  - intros H.
    apply split_on_inv in H as [H1 [[? _]|(r1 & -> & H)]]; [done|].
    apply split_on_inv in H as [H2 [[? _]|(r2 & -> & H)]]; [done|].
    apply split_on_inv in H as [H3 [[? _]|(r3 & -> & H)]]; [done|].
    apply split_on_inv in H as [H4 [[_ ->]|(r4 & _ & H)]].
    + done.
    + by apply split_on_not_nil in H.
  - intros (-> & H1 & H2 & H3 & H4).
    by rewrite !split_on_app, split_on_single.
Qed.

Lemma digits_no_dot (cs : list ascii) :
  forallb is_digit cs = true → "."%char ∉ cs.
Proof.
  rewrite forallb_forall. intros Hall Hin%list_elem_of_In.
  by apply Hall in Hin.
Qed.

Lemma forallb_Forall_digit (cs : list ascii) :
  forallb is_digit cs = true ↔ Forall (λ c, is_digit c = true) cs.
Proof.
  rewrite forallb_forall, Forall_forall. by setoid_rewrite list_elem_of_In.
Qed.

Lemma parse_octet_is_Some (cs : list ascii) :
  is_Some (parse_octet cs) ↔ decimalOctet cs.
Proof.
  unfold decimalOctet. rewrite <- forallb_Forall_digit. split.
  - intros [v Hv]. by apply parse_octet_Some in Hv as (? & ? & ? & _).
  - intros (? & ? & ?). exists (digits_value cs). by apply parse_octet_Some.
Qed.

Lemma decimalOctet_no_dot (cs : list ascii) : decimalOctet cs → "."%char ∉ cs.
Proof. intros (_ & Hd & _). by apply digits_no_dot, forallb_Forall_digit. Qed.

Lemma is_digit_spec (c : ascii) :
  is_digit c = bool_decide (c ∈ chars "0123456789").
Proof. destruct c as [[] [] [] [] [] [] [] []]; vm_compute; reflexivity. Qed.

Lemma IPv4_is_Some (s : string) : is_Some (IPv4 s) ↔ dottedQuad (chars s).
Proof.
  unfold IPv4, dottedQuad. split.
  - intros [a Ha].
    destruct (split_on "." (chars s)) as [|o1 [|o2 [|o3 [|o4 [|]]]]] eqn:Hsplit;
      try done.
    apply split_on_four in Hsplit as (Hcs & _).
    destruct (parse_octet o1) eqn:H1; [|done].
    destruct (parse_octet o2) eqn:H2; [|done].
    destruct (parse_octet o3) eqn:H3; [|done].
    destruct (parse_octet o4) eqn:H4; [|done].
    exists o1, o2, o3, o4. split; [done|].
    repeat first [apply Forall_nil_2 | apply Forall_cons_2];
      apply parse_octet_is_Some; eauto.
  - intros (o1 & o2 & o3 & o4 & Hcs & Hall).
    repeat match goal with
           | H : Forall _ (_ :: _) |- _ => apply Forall_cons in H as [? H]
           end.
    assert (Hsplit : split_on "." (chars s) = [o1; o2; o3; o4]).
    { apply split_on_four. split_and!; [done|by apply decimalOctet_no_dot..]. }
    rewrite Hsplit.
    repeat match goal with
           | H : decimalOctet _ |- _ =>
               apply parse_octet_is_Some in H as [? ->]
           end.
    by eexists.
Qed.

(** C9. [isValidIP] accepts a string exactly when the whole string is four
    decimal octets with a dot between neighbours: each octet is one or more
    of the digits 0-9 and has a value of at most 255. *)
Theorem isValidIP_accepts_exactly :
  (∀ s : string, isValidIP s = true ↔ dottedQuad (chars s))
  ∧ (∀ c : ascii, is_digit c = true ↔ c ∈ chars "0123456789")
  ∧ isValidIP "192.168.1.1" = true ∧ isValidIP "0.0.0.0" = true
  ∧ isValidIP "255.255.255.255" = true
  ∧ isValidIP "256.1.1.1" = false ∧ isValidIP "192.168.1" = false
  ∧ isValidIP "not-an-ip" = false ∧ isValidIP "" = false
  ∧ isValidIP " 10.0.0.1" = false ∧ isValidIP "10.0.0.1 " = false
  ∧ isValidIP "10.0.0.1.2" = false ∧ isValidIP "10..0.1" = false.
Proof.
  split_and!; try (vm_compute; reflexivity).
  - intros s. rewrite <- IPv4_is_Some. unfold isValidIP.
    destruct (IPv4 s); split; (done || by intros [? ?] || eauto).
  - intros c. by rewrite is_digit_spec, bool_decide_eq_true.
Qed.

(** ** Binary strings *)

Lemma octets_checked :
  forallb octet_checked (Z.of_nat <$> seq 0 256) = true.
Proof. vm_compute. reflexivity. Qed.

Lemma octetBinary_facts (v : Z) :
  0 ≤ v ≤ 255 →
  length (octetBinary v) = 8%nat ∧ Forall is_bit (octetBinary v)
  ∧ bits_value (octetBinary v) = v.
Proof.
  intros Hv. pose proof octets_checked as Hall.
  rewrite forallb_forall in Hall. specialize (Hall v).
  unfold octet_checked in Hall. rewrite !andb_true_iff, !bool_decide_eq_true in Hall.
  destruct Hall as [[Hlen Hbits] Hval].
  { apply list_elem_of_In, list_elem_of_fmap. exists (Z.to_nat v).
    split; [lia|]. apply elem_of_seq. lia. }
  split_and!; [done| |done].
  rewrite forallb_forall in Hbits. apply Forall_forall. intros c Hc.
  apply list_elem_of_In, Hbits in Hc.
  rewrite orb_true_iff, !bool_decide_eq_true in Hc. exact Hc.
Qed.

Lemma foldl_bits (a : Z) (cs : list ascii) :
  foldl (λ acc c, 2 * acc + bit_value c) a cs
  = a * 2 ^ Z.of_nat (length cs) + bits_value cs.
Proof.
  unfold bits_value. revert a. induction cs as [|c cs IH]; intros a.
  - simpl. lia.
  - cbn [foldl length]. rewrite IH, (IH (2 * 0 + bit_value c)).
    rewrite Nat2Z.inj_succ, Z.pow_succ_r by lia. lia.
Qed.

Lemma bits_value_app (x y : list ascii) :
  bits_value (x ++ y) = bits_value x * 2 ^ Z.of_nat (length y) + bits_value y.
Proof. unfold bits_value at 1. rewrite foldl_app. apply foldl_bits. Qed.

Lemma bits_value_cons (c : ascii) (cs : list ascii) :
  bits_value (c :: cs) = bit_value c * 2 ^ Z.of_nat (length cs) + bits_value cs.
Proof. apply (bits_value_app [c] cs). Qed.

Lemma bits_value_bound (cs : list ascii) :
  0 ≤ bits_value cs < 2 ^ Z.of_nat (length cs).
Proof.
  induction cs as [|c cs IH]; [done|].
  rewrite bits_value_cons. cbn [length].
  rewrite Nat2Z.inj_succ, Z.pow_succ_r by lia.
  unfold bit_value. case_decide; lia.
Qed.

Lemma bits_value_inj (x y : list ascii) :
  Forall is_bit x → Forall is_bit y → length x = length y →
  bits_value x = bits_value y → x = y.
Proof.
  intros Hx. revert y. induction Hx as [|a x Ha Hx IH]; intros y Hy Hlen Hval.
  - by destruct y.
  - destruct Hy as [|b y Hb Hy]; [done|].
    injection Hlen as Hlen. rewrite !bits_value_cons, Hlen in Hval.
    pose proof (bits_value_bound x) as Bx. pose proof (bits_value_bound y) as By.
    rewrite Hlen in Bx.
    assert (bit_value a = bit_value b ∧ bits_value x = bits_value y) as [Hab Hxy].
    { unfold bit_value in *. repeat case_decide; nia. }
    f_equal; [|by apply IH].
    unfold bit_value in Hab. destruct Ha as [->| ->], Hb as [->| ->]; done.
Qed.

Lemma bits_value_ones (n : nat) :
  bits_value (replicate n "1"%char) = 2 ^ Z.of_nat n - 1.
Proof.
  induction n as [|n IH]; [done|].
  cbn [replicate]. rewrite bits_value_cons, IH, length_replicate.
  rewrite Nat2Z.inj_succ, Z.pow_succ_r by lia. unfold bit_value. simpl. lia.
Qed.

Lemma bits_value_zeros (k : nat) : bits_value (replicate k "0"%char) = 0.
Proof.
  induction k as [|k IH]; [done|].
  cbn [replicate]. rewrite bits_value_cons, IH. unfold bit_value. simpl. lia.
Qed.

Lemma leading_ones_block (n k : nat) :
  leading_ones (replicate n "1"%char ++ replicate k "0"%char) = n.
Proof.
  induction n as [|n IH]; simpl.
  - by destruct k.
  - by rewrite IH.
Qed.

Lemma leading_ones_le (cs : list ascii) : (leading_ones cs ≤ length cs)%nat.
Proof. induction cs as [|c cs IH]; simpl; [done|]. case_decide; lia. Qed.

Lemma Forall_is_bit_block (n k : nat) :
  Forall is_bit (replicate n "1"%char ++ replicate k "0"%char).
Proof.
  apply Forall_app. split; apply Forall_replicate; [by right|by left].
Qed.

(** The word with [n] one-bits at the top, as a number. *)
Lemma contiguousMask_value (v n : Z) :
  0 ≤ v < 2 ^ 32 →
  contiguousMask v n ↔ 0 ≤ n ≤ 32 ∧ v = (2 ^ n - 1) * 2 ^ (32 - n).
Proof.
  intros Hv. unfold contiguousMask.
  assert (Hbits : ∀ i, 0 ≤ n ≤ 32 → 0 ≤ i →
            Z.testbit ((2 ^ n - 1) * 2 ^ (32 - n)) i
            = bool_decide (32 - n ≤ i) && bool_decide (i < 32)).
  { intros i Hn Hi.
    rewrite <- Z.shiftl_mul_pow2, Z.sub_1_r, <- Z.ones_equiv by lia.
    rewrite Z.shiftl_spec by lia.
    destruct (decide (32 - n ≤ i)) as [Hlow|Hlow].
    - rewrite (bool_decide_eq_true_2 _ Hlow). simpl.
      destruct (decide (i < 32)) as [Hhigh|Hhigh].
      + rewrite (bool_decide_eq_true_2 _ Hhigh). apply Z.ones_spec_low. lia.
      + rewrite (bool_decide_eq_false_2 _ Hhigh). apply Z.ones_spec_high. lia.
    - rewrite (bool_decide_eq_false_2 _ Hlow). apply Z.testbit_neg_r. lia. }
  split; intros [Hn H]; (split; [done|]).
  - apply Z.bits_inj'. intros i Hi. rewrite Hbits by done.
    destruct (decide (i < 32)) as [Hhigh|Hhigh].
    + rewrite (bool_decide_eq_true_2 _ Hhigh), andb_true_r. apply H. lia.
    + rewrite (bool_decide_eq_false_2 _ Hhigh), andb_false_r.
      apply (testbit_above v 32); lia.
  - intros i Hi. rewrite H, Hbits by lia.
    rewrite (bool_decide_eq_true_2 (i < 32)) by lia. apply andb_true_r.
Qed.

(** ** Netmasks *)

Lemma netmask_binary (v1 v2 v3 v4 : Z) :
  0 ≤ v1 ≤ 255 → 0 ≤ v2 ≤ 255 → 0 ≤ v3 ≤ 255 → 0 ≤ v4 ≤ 255 →
  let binary := octetBinary v1 ++ octetBinary v2 ++ octetBinary v3 ++ octetBinary v4 in
  length binary = 32%nat ∧ Forall is_bit binary
  ∧ bits_value binary = ipv4_value v1 v2 v3 v4.
Proof.
  intros H1 H2 H3 H4 binary. subst binary.
  destruct (octetBinary_facts v1 H1) as (L1 & B1 & V1).
  destruct (octetBinary_facts v2 H2) as (L2 & B2 & V2).
  destruct (octetBinary_facts v3 H3) as (L3 & B3 & V3).
  destruct (octetBinary_facts v4 H4) as (L4 & B4 & V4).
  split_and!.
  - rewrite !length_app. lia.
  - rewrite !Forall_app. done.
  - rewrite !bits_value_app, !length_app, V1, V2, V3, V4, L2, L3, L4.
    unfold ipv4_value. simpl. lia.
Qed.

(** A 32-character binary string is a block of ones followed by zeros
    exactly when the word it spells is a contiguous mask. *)
Lemma binary_block (binary : list ascii) (n : Z) :
  length binary = 32%nat → Forall is_bit binary →
  contiguousMask (bits_value binary) n ↔
  0 ≤ n ≤ 32 ∧
  binary = replicate (Z.to_nat n) "1"%char ++ replicate (Z.to_nat (32 - n)) "0"%char.
Proof.
  intros Hlen Hbits.
  pose proof (bits_value_bound binary) as Hbound. rewrite Hlen in Hbound.
  rewrite contiguousMask_value by done.
  assert (Hblock : 0 ≤ n ≤ 32 →
            bits_value (replicate (Z.to_nat n) "1"%char
                        ++ replicate (Z.to_nat (32 - n)) "0"%char)
            = (2 ^ n - 1) * 2 ^ (32 - n)).
  { intros Hn. rewrite bits_value_app, bits_value_ones, bits_value_zeros.
    rewrite length_replicate, !Z2Nat.id by lia. lia. }
  split; intros [Hn H]; (split; [done|]).
  - apply bits_value_inj; [done|apply Forall_is_bit_block| |by rewrite Hblock].
    rewrite length_app, !length_replicate. lia.
  - by rewrite H at 1; rewrite Hblock.
Qed.

Lemma digits_1_3_digits (cs : list ascii) :
  digits_1_3 cs = true → forallb is_digit cs = true.
Proof. unfold digits_1_3. rewrite !andb_true_iff. tauto. Qed.

Section dotted_netmask.
Variable s : string.
Variables o1 o2 o3 o4 : list ascii.
Hypothesis Hdotted : dotted (chars s) o1 o2 o3 o4.
Hypothesis Hpieces : Forall (λ o, digits_1_3 o = true) [o1; o2; o3; o4].

Lemma dotted_split : split_on "." (chars s) = [o1; o2; o3; o4].
Proof using Hdotted Hpieces.
  repeat match goal with
         | H : Forall _ (_ :: _) |- _ => apply Forall_cons in H as [? H]
         end.
  apply split_on_four.
  split_and!; [done|by apply digits_no_dot, digits_1_3_digits..].
Qed.

Lemma dotted_test : test_dotted_quad s = true.
Proof using Hdotted Hpieces.
  unfold test_dotted_quad. rewrite dotted_split.
  repeat match goal with
         | H : Forall _ (_ :: _) |- _ => apply Forall_cons in H as [? H]
         end.
  rewrite !andb_true_iff. done.
Qed.

Lemma dotted_not_digits : test_digits s = false.
Proof using Hdotted.
  unfold test_digits. rewrite Hdotted.
  rewrite forallb_app. simpl. apply andb_false_intro1, andb_false_r.
Qed.

Lemma netmaskToCIDR_dotted (n : Z) :
  netmaskToCIDR s = Some n ↔
  Forall (λ o, digits_value o ≤ 255) [o1; o2; o3; o4]
  ∧ contiguousMask (ipv4_value (digits_value o1) (digits_value o2)
                               (digits_value o3) (digits_value o4)) n.
Proof using Hdotted Hpieces.
  unfold netmaskToCIDR. rewrite dotted_split.
  pose proof Hpieces as Hd.
  repeat match goal with
         | H : Forall _ (_ :: _) |- _ =>
             apply Forall_cons in H as [?%digits_1_3_digits H]
         end.
  cbn [fmap list_fmap length Nat.eqb negb existsb]. unfold Number.
  repeat match goal with H : forallb is_digit _ = true |- _ => rewrite H end.
  set (v1 := digits_value o1). set (v2 := digits_value o2).
  set (v3 := digits_value o3). set (v4 := digits_value o4).
  assert (0 ≤ v1 ∧ 0 ≤ v2 ∧ 0 ≤ v3 ∧ 0 ≤ v4) as (P1 & P2 & P3 & P4).
  { split_and!; by apply digits_value_nonneg. }
  cbn [octet_out_of_range].
  rewrite !Forall_cons, Forall_nil.
  destruct (decide (v1 ≤ 255 ∧ v2 ≤ 255 ∧ v3 ≤ 255 ∧ v4 ≤ 255)) as [Hle|Hgt].
  - destruct Hle as (Q1 & Q2 & Q3 & Q4).
    rewrite !(proj2 (Z.ltb_ge _ 0)), !(proj2 (Z.ltb_ge 255 _)) by lia.
    cbn [orb default from_option concat id].
    rewrite app_nil_r.
    change (padStart 8 "0"%char (toString2 ?v)) with (octetBinary v).
    destruct (netmask_binary v1 v2 v3 v4) as (Hlen & Hbits & Hval); [lia..|].
    set (binary := octetBinary v1 ++ octetBinary v2 ++ octetBinary v3 ++ octetBinary v4) in *.
    pose proof (leading_ones_le binary) as Hones. rewrite Hlen in Hones.
    unfold repeat_char. rewrite (proj2 (Z.ltb_ge _ 0)) by lia.
    rewrite <- Hval, binary_block by done.
    assert (Hcount : ∀ k, 0 ≤ k ≤ 32 →
              binary = replicate (Z.to_nat k) "1"%char
                       ++ replicate (Z.to_nat (32 - k)) "0"%char →
              Z.of_nat (leading_ones binary) = k).
    { intros k Hk ->. rewrite leading_ones_block. lia. }
    case_bool_decide as Hexp.
    + split.
      * intros [= <-]. split; [done|]. split; [lia|done].
      * intros (_ & Hn & Hblock). f_equal. by apply Hcount.
    + split; [done|]. intros (_ & Hn & Hblock).
      destruct Hexp. by rewrite (Hcount n Hn Hblock) at 1 2.
  - assert (existsb octet_out_of_range [Some v1; Some v2; Some v3; Some v4] = true)
      as Hout.
    { cbn [existsb octet_out_of_range]. rewrite !orb_true_iff, !Z.ltb_lt. lia. }
    cbn [existsb octet_out_of_range] in Hout. rewrite Hout.
    split; [done|]. intros [(? & ? & ? & ? & _) _]. tauto.
Qed.

Lemma buildCIDR_dotted (subnet : string) :
  buildCIDR subnet s =
  match IPv4 subnet with
  | None => None
  | Some _ => netmaskToCIDR s ≫= fromCidr subnet
  end.
Proof using Hdotted Hpieces.
  unfold buildCIDR. rewrite dotted_not_digits, dotted_test.
  destruct (IPv4 subnet); [|done]. by destruct (netmaskToCIDR s).
Qed.
End dotted_netmask.

Lemma test_dotted_quad_spec (s : string) :
  test_dotted_quad s = true ↔
  ∃ o1 o2 o3 o4, dotted (chars s) o1 o2 o3 o4
                 ∧ Forall (λ o, digits_1_3 o = true) [o1; o2; o3; o4].
Proof.
  split.
  - unfold test_dotted_quad.
    destruct (split_on "." (chars s)) as [|o1 [|o2 [|o3 [|o4 [|]]]]] eqn:Hsplit;
      try done.
    rewrite !andb_true_iff. intros [[[? ?] ?] ?].
    apply split_on_four in Hsplit as [Hcs _].
    exists o1, o2, o3, o4. split; [done|]. Forall_list.
  - intros (o1 & o2 & o3 & o4 & Hd & Hp). by eapply dotted_test.
Qed.

(** C2. For a netmask string of four dot-separated groups of one to three
    digits (the strings that pass the dotted-quad test of [buildCIDR]), the
    conversion gives a prefix length [n] exactly when every octet is at most
    255 and the 32-bit word of the four octets is [n] one-bits from the top
    followed by zero-bits; the range built by [buildCIDR] has that prefix,
    and a mask that does not convert gives no range.  255.255.255.0,
    255.0.0.0 and 255.255.255.255 give 24, 8 and 32; 255.0.255.0 is
    rejected and a subnet with that mask is not retained. *)
Theorem netmaskToCIDR_contiguous (s : string) (o1 o2 o3 o4 : list ascii) :
  dotted (chars s) o1 o2 o3 o4 →
  Forall (λ o, digits_1_3 o = true) [o1; o2; o3; o4] →
  test_dotted_quad s = true
  ∧ (∀ n, netmaskToCIDR s = Some n ↔
          Forall (λ o, digits_value o ≤ 255) [o1; o2; o3; o4]
          ∧ contiguousMask (ipv4_value (digits_value o1) (digits_value o2)
                                       (digits_value o3) (digits_value o4)) n)
  ∧ (∀ subnet cidr, buildCIDR subnet s = Some cidr →
                    netmaskToCIDR s = Some (cidrPrefix cidr))
  ∧ (netmaskToCIDR s = None → ∀ subnet, buildCIDR subnet s = None)
  ∧ netmaskToCIDR "255.255.255.0" = Some 24
  ∧ netmaskToCIDR "255.0.0.0" = Some 8
  ∧ netmaskToCIDR "255.255.255.255" = Some 32
  ∧ netmaskToCIDR "255.0.255.0" = None
  ∧ (∀ uuid subnet,
       subnets (newSubnetMatcher [Subnet.mk uuid subnet "255.0.255.0"]) = []).
Proof.
  intros Hd Hp. split_and!; try (vm_compute; reflexivity).
  - by eapply dotted_test.
  - intros n. by apply netmaskToCIDR_dotted.
  - intros subnet cidr. rewrite (buildCIDR_dotted s o1 o2 o3 o4) by done.
    destruct (IPv4 subnet); [|done].
    destruct (netmaskToCIDR s) as [p|]; [|done]. simpl.
    by intros (_ & -> & _)%fromCidr_Some.
  - intros Hnone subnet. rewrite (buildCIDR_dotted s o1 o2 o3 o4) by done.
    rewrite Hnone. by destruct (IPv4 subnet).
  - intros uuid subnet. unfold newSubnetMatcher. simpl. unfold addSubnet. simpl.
    rewrite (buildCIDR_dotted "255.0.255.0" (chars "255") (chars "0")
               (chars "255") (chars "0")).
    + destruct (IPv4 subnet); [|done].
      replace (netmaskToCIDR "255.0.255.0") with (@None Z)
        by (vm_compute; reflexivity).
      done.
    + reflexivity.
    + repeat first [apply Forall_nil_2 | apply Forall_cons_2]; reflexivity.
Qed.

Lemma netmaskToCIDR_contiguous_witness :
  test_dotted_quad "255.255.255.0" = true.
Proof.
  refine (proj1 (netmaskToCIDR_contiguous "255.255.255.0"
                   (chars "255") (chars "255") (chars "255") (chars "0") _ _)).
  - reflexivity.
  - repeat first [apply Forall_nil_2 | apply Forall_cons_2]; reflexivity.
Defined.

(** ** The migration loop *)

Lemma truthy_true (s : string) : truthy s = true ↔ s ≠ "".
Proof. unfold truthy. rewrite negb_true_iff, bool_decide_eq_false. done. Qed.

Lemma truthy_false (s : string) : truthy s = false ↔ s = "".
Proof. unfold truthy. rewrite negb_false_iff, bool_decide_eq_true. done. Qed.

Lemma findSubnetForIP_Some (m : SubnetMatcher) (ipAddress uuid : string) :
  findSubnetForIP m ipAddress = Some uuid →
  ∃ ip cidr, IPv4 ipAddress = Some ip ∧ (uuid, cidr) ∈ subnets m ∧ inRange cidr ip.
Proof.
  unfold findSubnetForIP. destruct (IPv4 ipAddress) as [ip|]; [|done].
  intros (pre & cidr & post & Hm & Hin & _)%firstContaining_Some.
  exists ip, cidr. split_and!; [done| |by apply inRange_contains].
  rewrite Hm. apply elem_of_app. right. left.
Qed.

Lemma findSubnetForIP_None (m : SubnetMatcher) (ipAddress : string) :
  isValidIP ipAddress = true →
  findSubnetForIP m ipAddress = None ↔ ¬ inSomeRange m ipAddress.
Proof.
  unfold isValidIP, findSubnetForIP, inSomeRange.
  destruct (IPv4 ipAddress) as [ip|]; [intros _|done].
  rewrite firstContaining_None, Forall_forall. split.
  - intros Hnone (ip' & uuid & cidr & [= <-] & Hin & Hr).
    apply Hnone in Hin. simpl in Hin. apply inRange_contains in Hr. congruence.
  - intros Hnot [uuid cidr] Hin. simpl. apply not_inRange_contains.
    intros Hr. apply Hnot. by exists ip, uuid, cidr.
Qed.

Section migrate_facts.
Variable randomUUID : nat → string.
Variable this : DHCPMigrator.

(** What one turn appends, by the class of the mapping. *)
Lemma migrateOne_step (i : nat) (mapping : StaticMapping.t) (st : MigrateState) :
  let st' := migrateOne randomUUID this i mapping st in
  st_reservations st' =
    st_reservations st ++
    (if isReserved this mapping
     then [makeReservation (randomUUID (st_uuidCalls st))
             (default "" (resolvedSubnet this mapping)) mapping]
     else [])
  ∧ st_uuidCalls st' =
      (st_uuidCalls st + (if isReserved this mapping then 1 else 0))%nat
  ∧ st_unmatchedIPs st' =
      st_unmatchedIPs st ++
      (if isUnmatched this mapping then [StaticMapping.ipaddr mapping] else [])
  ∧ st_warnings st' = st_warnings st ++ option_list (warningFor this i mapping)
  ∧ st_errors st' =
      st_errors st ++ (if hasInvalidIP mapping then [invalidIPError mapping] else []).
Proof.
  unfold migrateOne, warningFor, isUnmatched, isReserved, resolvedSubnet,
    hasInvalidIP, wellFormed.
  destruct (truthy (StaticMapping.mac mapping)),
    (truthy (StaticMapping.ipaddr mapping)),
    (isValidMAC (StaticMapping.mac mapping)),
    (isValidIP (StaticMapping.ipaddr mapping));
    simpl; rewrite ?app_nil_r, ?Nat.add_0_r; try done.
  destruct (findSubnetForIP _ _) as [uuid|]; simpl;
    [destruct (truthy uuid); simpl|]; rewrite ?app_nil_r, ?Nat.add_0_r; try done.
  split_and!; (done || lia).
Qed.

Lemma imap_offset_cons {A B} (f : nat → A → B) (i : nat) (x : A) (l : list A) :
  imap (λ j, f (i + j)%nat) (x :: l) = f i x :: imap (λ j, f (S i + j)%nat) l.
Proof.
  rewrite imap_cons. f_equal; [f_equal; lia|].
  apply imap_ext. intros j y _. simpl. f_equal. lia.
Qed.

(** The four arrays after the loop, in closed form. *)
Lemma migrateLoop_closed (l : list StaticMapping.t) (i : nat) (st : MigrateState) :
  let st' := migrateLoop randomUUID this i l st in
  st_reservations st' =
    st_reservations st ++
    imap (λ k mapping,
            makeReservation (randomUUID (st_uuidCalls st + k))
              (default "" (resolvedSubnet this mapping)) mapping)
         (filter (λ mapping, isReserved this mapping) l)
  ∧ st_unmatchedIPs st' =
      st_unmatchedIPs st ++
      (StaticMapping.ipaddr <$> filter (λ mapping, isUnmatched this mapping) l)
  ∧ st_warnings st' =
      st_warnings st ++ omap id (imap (λ j, warningFor this (i + j)) l)
  ∧ st_errors st' =
      st_errors st ++ (invalidIPError <$> filter (λ mapping, hasInvalidIP mapping) l).
Proof.
  revert i st. induction l as [|mapping l IH]; intros i st.
  - simpl. by rewrite !app_nil_r.
  - cbn [migrateLoop].
    destruct (migrateOne_step i mapping st) as (Hr & Hk & Hu & Hw & He).
    destruct (IH (S i) (migrateOne randomUUID this i mapping st))
      as (IHr & IHu & IHw & IHe).
    cbv zeta. rewrite IHr, IHu, IHw, IHe, Hr, Hk, Hu, Hw, He. clear.
    rewrite !filter_cons, imap_offset_cons.
    split_and!.
    + destruct (isReserved this mapping); simpl; rewrite <- app_assoc; simpl.
      * f_equal. rewrite Nat.add_0_r. f_equal. apply imap_ext.
        intros k y _. simpl. do 2 f_equal. lia.
      * f_equal. apply imap_ext. intros k y _. simpl. do 2 f_equal. lia.
    + destruct (isUnmatched this mapping); simpl; by rewrite <- app_assoc.
    + rewrite <- app_assoc. f_equal.
      destruct (warningFor this i mapping); done.
    + destruct (hasInvalidIP mapping); simpl; by rewrite <- app_assoc.
Qed.

(** Every turn leaves exactly one more entry among reservations, warnings
    and errors. *)
Lemma migrateOne_one_more (i : nat) (mapping : StaticMapping.t) (st : MigrateState) :
  let st' := migrateOne randomUUID this i mapping st in
  (length (st_reservations st') + length (st_warnings st') + length (st_errors st')
   = S (length (st_reservations st) + length (st_warnings st) + length (st_errors st)))%nat.
Proof.
  unfold migrateOne.
  repeat case_match; simpl; rewrite ?length_app; simpl; lia.
Qed.

Lemma migrateLoop_accounts (l : list StaticMapping.t) (i : nat) (st : MigrateState) :
  let st' := migrateLoop randomUUID this i l st in
  (length (st_reservations st') + length (st_warnings st') + length (st_errors st')
   = length (st_reservations st) + length (st_warnings st) + length (st_errors st)
     + length l)%nat.
Proof.
  revert i st. induction l as [|mapping l IH]; intros i st; simpl; [lia|].
  rewrite IH, migrateOne_one_more. lia.
Qed.

Lemma migrateLoop_app (l1 l2 : list StaticMapping.t) (i : nat) (st : MigrateState) :
  migrateLoop randomUUID this i (l1 ++ l2) st
  = migrateLoop randomUUID this (i + length l1) l2
      (migrateLoop randomUUID this i l1 st).
Proof.
  revert i st. induction l1 as [|mapping l1 IH]; intros i st; simpl.
  - by rewrite Nat.add_0_r.
  - rewrite IH. f_equal. lia.
Qed.
End migrate_facts.

(** C5, as amended.  One turn of the loop has exactly one outcome, decided
    in this order: an empty hardware address or IP gives one warning and
    nothing else; otherwise an invalid MAC gives one warning; otherwise an
    invalid IP gives one error and no warning; otherwise an IP that no
    retained range contains is appended to the unmatched list with one
    warning; otherwise [findSubnetForIP] gives the id of the first retained
    range that contains the IP, and one reservation is produced for that id
    when it is a non-empty string, while for the empty string the record is
    handled as unmatched: its IP is appended to the unmatched list with one
    warning.  None of this depends on the ids of the other retained
    subnets.  Whatever the outcome the loop goes on with the remaining
    records, and every record of the input accounts for exactly one
    reservation, warning or error. *)
Theorem migrateOne_outcome (randomUUID : nat → string) (this : DHCPMigrator)
    (i : nat) (mapping : StaticMapping.t) (st : MigrateState) :
  let mac := StaticMapping.mac mapping in
  let ip := StaticMapping.ipaddr mapping in
  let m := subnetMatcher this in
  let st' := migrateOne randomUUID this i mapping st in
  (mac = "" ∨ ip = "" → grows st st' [] [] [missingFieldsWarning i mapping] [])
  ∧ (mac ≠ "" ∧ ip ≠ "" → isValidMAC mac = false →
     grows st st' [] [] [invalidMACWarning mapping] [])
  ∧ (mac ≠ "" ∧ ip ≠ "" → isValidMAC mac = true → isValidIP ip = false →
     grows st st' [] [] [] [invalidIPError mapping])
  ∧ (mac ≠ "" ∧ ip ≠ "" → isValidMAC mac = true → isValidIP ip = true →
     ¬ inSomeRange m ip →
     grows st st' [] [ip] [noSubnetWarning mapping] [])
  ∧ (mac ≠ "" ∧ ip ≠ "" → isValidMAC mac = true → isValidIP ip = true →
     inSomeRange m ip →
     ∃ uuid, findSubnetForIP m ip = Some uuid
             ∧ (uuid ≠ "" →
                grows st st'
                  [makeReservation (randomUUID (st_uuidCalls st)) uuid mapping]
                  [] [] [])
             ∧ (uuid = "" →
                grows st st' [] [ip] [noSubnetWarning mapping] []))
  ∧ (∀ before after i0 st0,
       migrateLoop randomUUID this i0 (before ++ mapping :: after) st0
       = migrateLoop randomUUID this (S (i0 + length before)) after
           (migrateOne randomUUID this (i0 + length before) mapping
              (migrateLoop randomUUID this i0 before st0)))
  ∧ (∀ l, let result := migrate randomUUID this l in
          (length (MigrationResult.reservations result)
           + length (MigrationResult.warnings result)
           + length (MigrationResult.errors result) = length l)%nat).
Proof.
  intros mac ip m st'. subst st'. unfold migrateOne, grows.
  fold mac ip m.
  split_and!.
  - intros Hmissing.
    assert (negb (truthy mac) || negb (truthy ip) = true) as ->.
    { rewrite orb_true_iff, !negb_true_iff, !truthy_false. done. }
    simpl. by rewrite !app_nil_r.
  - intros [Hmac Hip] Hbad.
    rewrite (proj2 (truthy_true mac)), (proj2 (truthy_true ip)), Hbad by done.
    simpl. by rewrite !app_nil_r.
  - intros [Hmac Hip] Hgood Hbad.
    rewrite (proj2 (truthy_true mac)), (proj2 (truthy_true ip)), Hgood, Hbad by done.
    simpl. by rewrite !app_nil_r.
  - intros [Hmac Hip] Hgood Hvalid Hnone.
    rewrite (proj2 (truthy_true mac)), (proj2 (truthy_true ip)), Hgood, Hvalid by done.
    apply findSubnetForIP_None in Hnone; [|done]. rewrite Hnone.
    simpl. by rewrite !app_nil_r.
  - intros [Hmac Hip] Hgood Hvalid Hin.
    rewrite (proj2 (truthy_true mac)), (proj2 (truthy_true ip)), Hgood, Hvalid by done.
    destruct (findSubnetForIP m ip) as [uuid|] eqn:Hfind.
    + exists uuid. split; [done|]. split.
      * intros Huuid. simpl.
        rewrite (proj2 (truthy_true uuid)) by done. simpl. by rewrite !app_nil_r.
      * intros ->. simpl. by rewrite !app_nil_r.
    + by apply findSubnetForIP_None in Hfind.
  - intros before after i0 st0. by rewrite migrateLoop_app.
  - intros l. simpl.
    by rewrite (migrateLoop_accounts randomUUID this l 0 initialState).
Qed.

(** A subnet with an empty id elsewhere in the configuration does not keep
    a mapping of another range from being reserved. *)
Lemma migrateOne_outcome_witness :
  let this :=
    newDHCPMigrator [Subnet.mk "s1" "10.0.0.0" "8";
                     Subnet.mk "" "192.168.0.0" "16"] false in
  let mapping :=
    StaticMapping.mk "AA:BB:CC:DD:EE:FF" "10.0.0.5" None None None None in
  findSubnetForIP (subnetMatcher this) "10.0.0.5" = Some "s1"
  ∧ grows initialState (migrateOne (λ n, pretty n) this 0 mapping initialState)
      [makeReservation "0" "s1" mapping] [] [] [].
Proof.
  intros this mapping.
  destruct (proj1 (proj2 (proj2 (proj2 (proj2
              (migrateOne_outcome (λ n, pretty n) this 0 mapping initialState))))))
    as (uuid & Hfind & Hreserved & _).
  - split; discriminate.
  - vm_compute. reflexivity.
  - vm_compute. reflexivity.
  - exists 167772165, "s1", {| ipv4 := 167772160; cidrPrefix := 8 |}.
    split_and!.
    + vm_compute. reflexivity.
    + vm_compute. left.
    + unfold inRange. vm_compute. split; discriminate.
  - assert (Hs1 : findSubnetForIP (subnetMatcher this) "10.0.0.5" = Some "s1")
      by (vm_compute; reflexivity).
    split; [exact Hs1|].
    assert (Some "s1" = Some uuid) as [= <-]
      by (rewrite <- Hfind; vm_compute; reflexivity).
    apply Hreserved. discriminate.
Defined.

(** The claim C5 as it stands fails for a retained subnet whose id is the
    empty string: the mapping passes every check and its IP lies in the
    retained range, yet no reservation is produced and the IP is reported
    as unmatched. *)
Lemma migrate_empty_id_counterexample :
  let this := newDHCPMigrator [Subnet.mk "" "10.0.0.0" "8"] false in
  let mapping :=
    StaticMapping.mk "AA:BB:CC:DD:EE:FF" "10.0.0.5" None None None None in
  StaticMapping.mac mapping ≠ "" ∧ StaticMapping.ipaddr mapping ≠ ""
  ∧ isValidMAC (StaticMapping.mac mapping) = true
  ∧ isValidIP (StaticMapping.ipaddr mapping) = true
  ∧ inSomeRange (subnetMatcher this) (StaticMapping.ipaddr mapping)
  ∧ migrate (λ n, pretty n) this [mapping]
    = MigrationResult.mk [] 0 ["10.0.0.5"]
        ["No subnet found for IP: 10.0.0.5 (MAC: AA:BB:CC:DD:EE:FF)"] [].
Proof.
  split_and!; try discriminate; try (vm_compute; reflexivity).
  exists 167772165, "", {| ipv4 := 167772160; cidrPrefix := 8 |}.
  split_and!.
  - vm_compute. reflexivity.
  - vm_compute. left.
  - unfold inRange. vm_compute. split; discriminate.
Qed.

(** C6. A turn of the loop appends a reservation exactly for a mapping that
    is processed successfully ([isReserved]), an unmatched IP for one that
    [isUnmatched], an error for one that [hasInvalidIP], and the warning
    [warningFor] gives.  Over the whole input, the reservations are those of
    the successfully processed mappings in the order of the input, the
    [k]-th of them carrying the [k]-th identifier drawn; unmatched IPs,
    warnings and errors are listed in the order of the mappings that gave
    rise to them, one entry per such mapping even when entries repeat. *)
Theorem migrate_preserves_order (randomUUID : nat → string) (this : DHCPMigrator)
    (l : list StaticMapping.t) :
  let result := migrate randomUUID this l in
  (∀ i mapping st,
     let st' := migrateOne randomUUID this i mapping st in
     st_reservations st' =
       st_reservations st ++
       (if isReserved this mapping
        then [makeReservation (randomUUID (st_uuidCalls st))
                (default "" (resolvedSubnet this mapping)) mapping]
        else [])
     ∧ st_unmatchedIPs st' =
         st_unmatchedIPs st ++
         (if isUnmatched this mapping then [StaticMapping.ipaddr mapping] else [])
     ∧ st_warnings st' = st_warnings st ++ option_list (warningFor this i mapping)
     ∧ st_errors st' =
         st_errors st ++
         (if hasInvalidIP mapping then [invalidIPError mapping] else []))
  ∧ MigrationResult.reservations result =
    imap (λ k mapping,
            makeReservation (randomUUID k)
              (default "" (resolvedSubnet this mapping)) mapping)
         (filter (λ mapping, isReserved this mapping) l)
  ∧ MigrationResult.unmatchedIPs result =
      (StaticMapping.ipaddr <$> filter (λ mapping, isUnmatched this mapping) l)
  ∧ MigrationResult.warnings result = omap id (imap (warningFor this) l)
  ∧ MigrationResult.errors result =
      (invalidIPError <$> filter (λ mapping, hasInvalidIP mapping) l)
  ∧ (∀ mapping, isUnmatched this mapping = true →
       MigrationResult.unmatchedIPs (migrate randomUUID this [mapping; mapping])
       = [StaticMapping.ipaddr mapping; StaticMapping.ipaddr mapping]
       ∧ MigrationResult.warnings (migrate randomUUID this [mapping; mapping])
         = [noSubnetWarning mapping; noSubnetWarning mapping]).
Proof.
  assert (Hclosed : ∀ l', let result := migrate randomUUID this l' in
    MigrationResult.reservations result =
      imap (λ k mapping,
              makeReservation (randomUUID k)
                (default "" (resolvedSubnet this mapping)) mapping)
           (filter (λ mapping, isReserved this mapping) l')
    ∧ MigrationResult.unmatchedIPs result =
        (StaticMapping.ipaddr <$> filter (λ mapping, isUnmatched this mapping) l')
    ∧ MigrationResult.warnings result = omap id (imap (warningFor this) l')
    ∧ MigrationResult.errors result =
        (invalidIPError <$> filter (λ mapping, hasInvalidIP mapping) l')).
  { intros l'. simpl.
    destruct (migrateLoop_closed randomUUID this l' 0 initialState)
      as (Hr & Hu & Hw & He).
    by rewrite Hr, Hu, Hw, He. }
  intros result. destruct (Hclosed l) as (Hr & Hu & Hw & He).
  split_and!; [|done..|].
  { intros i mapping st.
    destruct (migrateOne_step randomUUID this i mapping st) as (? & _ & ? & ? & ?).
    done. }
  intros mapping Hunmatched.
  destruct (Hclosed [mapping; mapping]) as (_ & -> & -> & _).
  rewrite !filter_cons, filter_nil. simpl.
  unfold warningFor. rewrite Hunmatched. simpl.
  unfold isUnmatched, wellFormed in Hunmatched.
  rewrite !andb_true_iff in Hunmatched.
  destruct Hunmatched as [[[[-> ->] ->] _] _]. done.
Qed.

(** ** Statistics and the pre-flight check *)

(** C7, as amended.  [getStats] reports the length of the mapping list as
    the total, the reservation count of the result as the successes (for a
    result of [migrate] this is the length of its reservation list), the
    difference of the two as the failures, and the lengths of the three
    diagnostic sequences.  These six numbers are the same whichever
    migrator computes them: they depend on the mapping list and the result
    alone.  The seventh field, the subnet count, is read from the matcher
    of the migrator, so the record as a whole is a function of the two
    arguments and of the number of subnets the migrator retains: two
    migrators give the same statistics for the same arguments exactly when
    they retain the same number of subnets. *)
Theorem getStats_counts (this : DHCPMigrator) (l : list StaticMapping.t)
    (result : MigrationResult.t) :
  let stats := getStats this l result in
  MigrationStats.totalStaticMappings stats = Z.of_nat (length l)
  ∧ MigrationStats.successfulMigrations stats
    = MigrationResult.reservationsCreated result
  ∧ MigrationStats.failedMigrations stats
    = MigrationStats.totalStaticMappings stats
      - MigrationStats.successfulMigrations stats
  ∧ MigrationStats.unmatchedIPs stats
    = Z.of_nat (length (MigrationResult.unmatchedIPs result))
  ∧ MigrationStats.warnings stats
    = Z.of_nat (length (MigrationResult.warnings result))
  ∧ MigrationStats.errors stats
    = Z.of_nat (length (MigrationResult.errors result))
  ∧ (∀ randomUUID migrator mappings,
       MigrationStats.successfulMigrations
         (getStats this l (migrate randomUUID migrator mappings))
       = Z.of_nat (length (MigrationResult.reservations
                             (migrate randomUUID migrator mappings))))
  ∧ (∀ other : DHCPMigrator,
       let stats' := getStats other l result in
       MigrationStats.totalStaticMappings stats'
       = MigrationStats.totalStaticMappings stats
       ∧ MigrationStats.successfulMigrations stats'
         = MigrationStats.successfulMigrations stats
       ∧ MigrationStats.failedMigrations stats'
         = MigrationStats.failedMigrations stats
       ∧ MigrationStats.unmatchedIPs stats' = MigrationStats.unmatchedIPs stats
       ∧ MigrationStats.warnings stats' = MigrationStats.warnings stats
       ∧ MigrationStats.errors stats' = MigrationStats.errors stats)
  ∧ MigrationStats.totalSubnets stats
    = Z.of_nat (length (getAllSubnets (subnetMatcher this)))
  ∧ (∀ other : DHCPMigrator,
       getStats other l result = stats
       ↔ length (getAllSubnets (subnetMatcher other))
         = length (getAllSubnets (subnetMatcher this))).
Proof.
  simpl. split_and!; try done.
  intros other. unfold getStats. split.
  - intros Hsame. injection Hsame as Hsubnets. by apply Nat2Z.inj.
  - intros Hsubnets. by rewrite Hsubnets.
Qed.

(** The claim C7 as it stands fails: with the same mapping list and the
    same result, a migrator without subnets and one that retains a subnet
    return different statistics, which differ in the subnet count. *)
Lemma getStats_migrator_counterexample :
  let without := newDHCPMigrator [] false in
  let retaining := newDHCPMigrator [Subnet.mk "s1" "10.0.0.0" "8"] false in
  let l : list StaticMapping.t := [] in
  let result := migrate (λ n, pretty n) without l in
  migrate (λ n, pretty n) retaining l = result
  ∧ getStats without l result ≠ getStats retaining l result
  ∧ MigrationStats.totalSubnets (getStats without l result) = 0
  ∧ MigrationStats.totalSubnets (getStats retaining l result) = 1.
Proof.
  split_and!; try (vm_compute; reflexivity).
  vm_compute. discriminate.
Qed.

Lemma countValidMappings_zero (l : list StaticMapping.t) :
  countValidMappings l = O ↔
  Forall (λ mapping, StaticMapping.mac mapping = ""
                     ∨ StaticMapping.ipaddr mapping = "") l.
Proof.
  unfold countValidMappings.
  assert (Hgen : ∀ n,
    foldl (λ validMappings mapping,
             if truthy (StaticMapping.mac mapping)
                && truthy (StaticMapping.ipaddr mapping)
             then S validMappings else validMappings) n l = O ↔
    n = O ∧ Forall (λ mapping, StaticMapping.mac mapping = ""
                               ∨ StaticMapping.ipaddr mapping = "") l).
  { induction l as [|mapping l IH]; intros n; simpl.
    - split; [by intros ->|by intros [-> _]].
    - rewrite IH, Forall_cons.
      destruct (truthy (StaticMapping.mac mapping)) eqn:Hmac;
        destruct (truthy (StaticMapping.ipaddr mapping)) eqn:Hip; simpl;
        repeat match goal with
               | H : truthy _ = true |- _ => apply truthy_true in H
               | H : truthy _ = false |- _ => apply truthy_false in H
               end;
        (split; [intros [Hn Hall]|intros [Hn [Hone Hall]]]);
        first [lia | tauto]. }
  rewrite Hgen. intuition done.
Qed.

Lemma getAllSubnets_empty (subnetList : list Subnet.t) :
  length (getAllSubnets (newSubnetMatcher subnetList)) = O ↔
  subnets (newSubnetMatcher subnetList) = [].
Proof.
  unfold getAllSubnets.
  pose proof (buildSubnetMap_same_keys
                {| subnets := []; subnetMetadata := [] |} subnetList eq_refl) as Hkeys.
  fold (newSubnetMatcher subnetList) in Hkeys.
  rewrite length_fmap, <- (length_fmap fst), <- Hkeys, length_fmap.
  by destruct (subnets (newSubnetMatcher subnetList)).
Qed.

(** C8. [valid] is true exactly when no issue is listed; the no-subnets
    issue is listed exactly when the matcher retained no range, the
    no-mappings issue exactly when the mapping list is empty, and the
    no-valid-mappings issue exactly when the list is non-empty and every
    mapping has an empty hardware address or an empty IP.  Nothing else is
    ever listed, and the check only reads its inputs. *)
Theorem validateMigration_issues (subnetList : list Subnet.t) (verbose : bool)
    (l : list StaticMapping.t) :
  let this := newDHCPMigrator subnetList verbose in
  let v := validateMigration this l in
  (valid v = true ↔ issues v = [])
  ∧ (noSubnetsIssue ∈ issues v ↔ subnets (subnetMatcher this) = [])
  ∧ (noMappingsIssue ∈ issues v ↔ l = [])
  ∧ (noValidMappingsIssue ∈ issues v ↔
     l ≠ [] ∧ Forall (λ mapping, StaticMapping.mac mapping = ""
                                 ∨ StaticMapping.ipaddr mapping = "") l)
  ∧ (∀ issue, issue ∈ issues v →
       issue ∈ [noSubnetsIssue; noMappingsIssue; noValidMappingsIssue]).
Proof.
  intros this v. subst v. unfold validateMigration. cbv zeta.
  set (noSubnets := (length (getAllSubnets (subnetMatcher this)) =? 0)%nat).
  set (noMappings := (length l =? 0)%nat).
  set (noValid := ((countValidMappings l =? 0)%nat && (0 <? length l)%nat)).
  assert (Hsub : noSubnets = true ↔ subnets (subnetMatcher this) = []).
  { unfold noSubnets. rewrite Nat.eqb_eq. apply getAllSubnets_empty. }
  assert (Hmap : noMappings = true ↔ l = []).
  { unfold noMappings. rewrite Nat.eqb_eq. by destruct l. }
  assert (Hval : noValid = true ↔
            l ≠ [] ∧ Forall (λ mapping, StaticMapping.mac mapping = ""
                                        ∨ StaticMapping.ipaddr mapping = "") l).
  { unfold noValid.
    rewrite andb_true_iff, Nat.eqb_eq, Nat.ltb_lt, countValidMappings_zero.
    destruct l; simpl; [|split; intros [? ?]; split; (done || lia)].
    split; intros [? ?]; (done || lia). }
  rewrite <- Hval, <- Hsub, <- Hmap. clear Hsub Hmap Hval.
  unfold noSubnetsIssue, noMappingsIssue, noValidMappingsIssue.
  destruct noSubnets, noMappings, noValid; cbn [app length Nat.eqb valid issues];
    (split_and!; [| | | |intros issue]);
    rewrite ?elem_of_cons, ?elem_of_nil;
    (split || idtac); try done; try (intros _; tauto); try tauto;
    intros Hmem; repeat (destruct Hmem as [Hmem|Hmem]; try done).
Qed.

(** * Further properties *)

(** ** The command line *)

Example parseArgs_runs :
  parseArgs ["config.xml"; "--dry-run"; "out.xml"; "-v"]
  = Some (MigrationConfig.mk "config.xml" "out.xml" true true)
  ∧ parseArgs ["config.xml"] =
    Some (MigrationConfig.mk "config.xml" "new_config.xml" false false)
  ∧ parseArgs ["-v"] = None ∧ parseArgs ["a"; "-x"] = None
  ∧ parseArgs ["a"; "-"] = None ∧ parseArgs [] = None
  ∧ parseArgs ["a"; "--help"] = None.
Proof. vm_compute. done. Qed.

Lemma flag_not_positional (arg : string) :
  dryRunFlag arg ∨ verboseFlag arg → startsWith arg "-" = true.
Proof. intros [[-> | ->]|[-> | ->]]; reflexivity. Qed.

Lemma parseArgsLoop_None (args : list string) (config : MigrationConfig.t)
    (nonFlagArgs : list string) :
  parseArgsLoop args config nonFlagArgs = None ↔ Exists unknownOption args.
Proof.
  revert config nonFlagArgs.
  induction args as [|arg rest IH]; intros config nonFlagArgs; simpl.
  - split; [done|by intros ?%Exists_nil].
  - rewrite Exists_cons. unfold unknownOption at 1, dryRunFlag, verboseFlag.
    destruct (bool_decide (arg = "-d") || bool_decide (arg = "--dry-run")) eqn:Hd.
    { rewrite IH. rewrite orb_true_iff, !bool_decide_eq_true in Hd. tauto. }
    destruct (bool_decide (arg = "-v") || bool_decide (arg = "--verbose")) eqn:Hv.
    { rewrite IH. rewrite orb_true_iff, !bool_decide_eq_true in Hv. tauto. }
    rewrite orb_false_iff, !bool_decide_eq_false in Hd, Hv.
    destruct (startsWith arg "-") eqn:Hs; simpl.
    + split; [intros _; left; tauto|done].
    + rewrite IH. split; [tauto|]. intros [[? _]|?]; done.
Qed.

Lemma parseArgsLoop_Some (args : list string) (config config' : MigrationConfig.t)
    (nonFlagArgs nonFlagArgs' : list string) :
  parseArgsLoop args config nonFlagArgs = Some (config', nonFlagArgs') →
  MigrationConfig.inputFile config' = MigrationConfig.inputFile config
  ∧ MigrationConfig.outputFile config' = MigrationConfig.outputFile config
  ∧ (MigrationConfig.dryRun config' = true ↔
     MigrationConfig.dryRun config = true ∨ "-d" ∈ args ∨ "--dry-run" ∈ args)
  ∧ (MigrationConfig.verbose config' = true ↔
     MigrationConfig.verbose config = true ∨ "-v" ∈ args ∨ "--verbose" ∈ args)
  ∧ nonFlagArgs' = nonFlagArgs ++ filter positional args.
Proof.
  revert config nonFlagArgs.
  induction args as [|arg rest IH]; intros config nonFlagArgs; simpl.
  - intros [= <- <-]. rewrite app_nil_r, !elem_of_nil. tauto.
  - rewrite filter_cons, !elem_of_cons.
    destruct (bool_decide (arg = "-d") || bool_decide (arg = "--dry-run")) eqn:Hd.
    { rewrite orb_true_iff, !bool_decide_eq_true in Hd.
      intros (Hi & Ho & Hdry & Hverb & Hpos)%IH. simpl in *.
      rewrite decide_False
        by (unfold positional; rewrite flag_not_positional by (left; exact Hd); done).
      split_and!; [done..| | |done].
      - rewrite Hdry. intuition congruence.
      - rewrite Hverb. destruct Hd as [-> | ->]; intuition congruence. }
    destruct (bool_decide (arg = "-v") || bool_decide (arg = "--verbose")) eqn:Hv.
    { rewrite orb_true_iff, !bool_decide_eq_true in Hv.
      rewrite orb_false_iff, !bool_decide_eq_false in Hd.
      intros (Hi & Ho & Hdry & Hverb & Hpos)%IH. simpl in *.
      rewrite decide_False
        by (unfold positional; rewrite flag_not_positional by (right; exact Hv); done).
      split_and!; [done..| | |done].
      - rewrite Hdry. intuition congruence.
      - rewrite Hverb. intuition congruence. }
    rewrite orb_false_iff, !bool_decide_eq_false in Hd, Hv.
    destruct (startsWith arg "-") eqn:Hs; simpl; [done|].
    intros (Hi & Ho & Hdry & Hverb & Hpos)%IH.
    rewrite decide_True by done.
    split_and!; [done..| | |by rewrite Hpos, <- app_assoc].
    + rewrite Hdry. intuition congruence.
    + rewrite Hverb. intuition congruence.
Qed.

(** X1. [parseArgs] gives no configuration exactly when there is no
    argument at all, help is asked for, some argument starts with a dash
    without being one of the four flags, or no argument is positional (none
    fails to start with a dash). *)
Theorem parseArgs_rejects (args : list string) :
  parseArgs args = None ↔
  args = [] ∨ "-h" ∈ args ∨ "--help" ∈ args ∨ Exists unknownOption args
  ∨ filter positional args = [].
Proof.
  unfold parseArgs.
  destruct args as [|arg rest] eqn:Hargs; [simpl; tauto|]. rewrite <- Hargs.
  assert (Hlen : (length args =? 0)%nat = false) by by subst.
  rewrite Hlen. simpl.
  destruct (bool_decide ("-h" ∈ args)) eqn:Hh; simpl.
  { apply bool_decide_eq_true in Hh. tauto. }
  destruct (bool_decide ("--help" ∈ args)) eqn:Hhelp; simpl.
  { apply bool_decide_eq_true in Hhelp. tauto. }
  apply bool_decide_eq_false in Hh, Hhelp.
  destruct (parseArgsLoop args _ []) as [[config nonFlagArgs]|] eqn:Hloop.
  - pose proof Hloop as Hsome.
    apply parseArgsLoop_Some in Hsome as (_ & _ & _ & _ & Hpos). simpl in Hpos.
    assert (Hknown : ¬ Exists unknownOption args).
    { rewrite <- parseArgsLoop_None. by rewrite Hloop. }
    rewrite <- Hpos. destruct nonFlagArgs.
    + tauto.
    + split; [done|]. intros [?|[?|[?|[?|?]]]]; subst; done.
  - apply parseArgsLoop_None in Hloop. tauto.
Qed.

(** X2. A configuration that [parseArgs] gives has the first positional
    argument as its input file, the second one as its output file
    (new_config.xml when there is none), and further positional arguments
    are ignored; dry-run and verbose are set exactly when one of their two
    spellings occurs anywhere among the arguments. *)
Theorem parseArgs_accepts (args : list string) (config : MigrationConfig.t) :
  parseArgs args = Some config →
  filter positional args !! O = Some (MigrationConfig.inputFile config)
  ∧ MigrationConfig.outputFile config
    = default "new_config.xml" (filter positional args !! 1%nat)
  ∧ (MigrationConfig.dryRun config = true ↔ "-d" ∈ args ∨ "--dry-run" ∈ args)
  ∧ (MigrationConfig.verbose config = true ↔ "-v" ∈ args ∨ "--verbose" ∈ args)
  ∧ Forall (λ arg, positional arg ∨ dryRunFlag arg ∨ verboseFlag arg) args.
Proof.
  unfold parseArgs.
  destruct ((length args =? 0)%nat || bool_decide ("-h" ∈ args)
            || bool_decide ("--help" ∈ args)); [done|].
  destruct (parseArgsLoop args _ []) as [[config' nonFlagArgs]|] eqn:Hloop;
    [|done].
  assert (Hknown : ¬ Exists unknownOption args).
  { rewrite <- parseArgsLoop_None. by rewrite Hloop. }
  apply parseArgsLoop_Some in Hloop as (_ & Hout & Hdry & Hverb & Hpos).
  simpl in *. rewrite <- Hpos.
  destruct nonFlagArgs as [|input others]; [done|]. intros [= <-]. simpl.
  split_and!; [done| | | |].
  - rewrite Hout. by destruct others.
  - rewrite Hdry. intuition congruence.
  - rewrite Hverb. intuition congruence.
  - apply Forall_forall. intros arg Harg.
    destruct (startsWith arg "-") eqn:Hs; [|by left].
    destruct (decide (dryRunFlag arg)); [tauto|].
    destruct (decide (verboseFlag arg)); [tauto|].
    destruct Hknown. apply Exists_exists. exists arg. done.
Qed.

Lemma parseArgs_accepts_witness :
  (MigrationConfig.dryRun (MigrationConfig.mk "config.xml" "out.xml" true false)
   = true ↔
   "-d" ∈ ["--dry-run"; "config.xml"; "out.xml"; "extra.xml"]
   ∨ "--dry-run" ∈ ["--dry-run"; "config.xml"; "out.xml"; "extra.xml"]).
Proof.
  exact (proj1 (proj2 (proj2
           (parseArgs_accepts ["--dry-run"; "config.xml"; "out.xml"; "extra.xml"]
              (MigrationConfig.mk "config.xml" "out.xml" true false) eq_refl)))).
Defined.

(** ** The accessors of the matcher *)

Section js_map_lookup.
Context {K V : Type} `{EqDecision K}.
Implicit Types m : Map K V.

Lemma Map_get_set m k v k' :
  Map_get (Map_set m k v) k' = if decide (k = k') then Some v else Map_get m k'.
Proof.
  induction m as [|[k0 v0] m IH]; simpl.
  - by case_decide.
  - destruct (decide (k0 = k)) as [->|Hne]; simpl.
    + by case_decide.
    + rewrite IH. repeat case_decide; congruence.
Qed.

Lemma Map_get_is_Some m k : is_Some (Map_get m k) ↔ k ∈ m.*1.
Proof.
  induction m as [|[k0 v0] m IH]; csimpl.
  - rewrite elem_of_nil. split; [by intros [? ?]|done].
  - rewrite elem_of_cons. case_decide as Hk.
    + split; [by left|by eexists].
    + rewrite IH. split; [by right|]. intros [->|?]; done.
Qed.

Lemma Map_get_elem m k v : Map_get m k = Some v → (k, v) ∈ m.
Proof.
  induction m as [|[k0 v0] m IH]; simpl; [done|].
  case_decide as Hk.
  - intros [= ->]. subst. left.
  - intros Hget. right. by apply IH.
Qed.

Lemma elem_Map_get m k v : NoDup m.*1 → (k, v) ∈ m → Map_get m k = Some v.
Proof.
  induction m as [|[k0 v0] m IH]; csimpl.
  - by intros _ ?%elem_of_nil.
  - rewrite NoDup_cons, elem_of_cons. intros [Hk0 Hnd] [[= -> ->]|Hin].
    + by rewrite decide_True.
    + rewrite decide_False; [by apply IH|].
      intros ->. apply Hk0. apply list_elem_of_fmap. by exists (k, v).
Qed.
End js_map_lookup.

Lemma elem_of_firstOccurrences (ids : list string) (uuid : string) :
  uuid ∈ firstOccurrences ids ↔ uuid ∈ ids.
Proof.
  induction ids as [|u ids IH]; simpl; [done|].
  rewrite !elem_of_cons, list_elem_of_filter, IH.
  destruct (decide (uuid = u)); tauto.
Qed.

Lemma NoDup_firstOccurrences (ids : list string) : NoDup (firstOccurrences ids).
Proof.
  induction ids as [|u ids IH]; simpl; [constructor|].
  apply NoDup_cons. split; [|by apply NoDup_filter].
  rewrite list_elem_of_filter. tauto.
Qed.

Lemma buildSubnetMap_app (m : SubnetMatcher) (l1 l2 : list Subnet.t) :
  buildSubnetMap m (l1 ++ l2) = buildSubnetMap (buildSubnetMap m l1) l2.
Proof. apply foldl_app. Qed.

Lemma newSubnetMatcher_keys (l : list Subnet.t) :
  (subnets (newSubnetMatcher l)).*1 = firstOccurrences (retainedRanges l).*1.
Proof.
  unfold newSubnetMatcher. rewrite subnets_keys. simpl.
  apply filter_all. apply Forall_forall. intros uuid _. apply not_elem_of_nil.
Qed.

Lemma newSubnetMatcher_metadata_keys (l : list Subnet.t) :
  (subnetMetadata (newSubnetMatcher l)).*1 = firstOccurrences (retainedRanges l).*1.
Proof.
  rewrite <- newSubnetMatcher_keys. symmetry.
  by apply buildSubnetMap_same_keys.
Qed.

(** The range kept for an id is always the one computed from the record
    kept for that id. *)
Lemma buildSubnetMap_in_step (m : SubnetMatcher) (l : list Subnet.t) :
  (∀ uuid, Map_get (subnets m) uuid
           = Map_get (subnetMetadata m) uuid
             ≫= λ s, buildCIDR (Subnet.subnet s) (Subnet.netmask s)) →
  ∀ uuid, Map_get (subnets (buildSubnetMap m l)) uuid
          = Map_get (subnetMetadata (buildSubnetMap m l)) uuid
            ≫= λ s, buildCIDR (Subnet.subnet s) (Subnet.netmask s).
Proof.
  revert m. induction l as [|s l IH]; intros m Hm; [done|].
  change (buildSubnetMap m (s :: l)) with (buildSubnetMap (addSubnet m s) l).
  apply IH. intros uuid. unfold addSubnet.
  destruct (buildCIDR _ _) as [cidr|] eqn:Hs; [|done]. simpl.
  rewrite !Map_get_set. case_decide; [by simpl|done].
Qed.

Lemma metadata_origin (m : SubnetMatcher) (l : list Subnet.t) uuid s :
  (uuid, s) ∈ subnetMetadata (buildSubnetMap m l) →
  (uuid, s) ∈ subnetMetadata m ∨ (s ∈ l ∧ Subnet.uuid s = uuid ∧ builds s).
Proof.
  revert m. induction l as [|s0 l IH]; intros m; [simpl; auto|].
  change (buildSubnetMap m (s0 :: l)) with (buildSubnetMap (addSubnet m s0) l).
  intros [Hin|(Hin & ? & ?)]%IH; [|right; split_and!; [by right|done..]].
  unfold addSubnet in Hin.
  destruct (buildCIDR _ _) as [cidr|] eqn:Hs0; [|by left]. simpl in Hin.
  apply Map_set_elem in Hin as [Hin|[= -> ->]]; [by left|].
  right. split_and!; [left|done|]. unfold builds. by rewrite Hs0.
Qed.

(** Records that are not kept, or carry another id, leave the entry of an
    id as it is. *)
Lemma metadata_untouched (m : SubnetMatcher) (l : list Subnet.t) (uuid : string) :
  (∀ s, s ∈ l → Subnet.uuid s = uuid →
        buildCIDR (Subnet.subnet s) (Subnet.netmask s) = None) →
  Map_get (subnetMetadata (buildSubnetMap m l)) uuid
  = Map_get (subnetMetadata m) uuid.
Proof.
  revert m. induction l as [|s l IH]; intros m Hl; [done|].
  change (buildSubnetMap m (s :: l)) with (buildSubnetMap (addSubnet m s) l).
  rewrite IH by (intros s' Hs'; apply Hl; by right).
  unfold addSubnet. destruct (buildCIDR _ _) as [cidr|] eqn:Hs; [|done]. simpl.
  rewrite Map_get_set. case_decide as Hid; [|done].
  rewrite Hl in Hs; [done|left|done].
Qed.

(** X3. The two accessors agree: the range kept for an id is the one built
    from the record kept for it.  A record that [getSubnetInfo] gives
    carries the id asked for and comes from the input; the record given is
    the last one of the input with that id that construction keeps, and
    none is given exactly when construction keeps no record with that id. *)
Theorem accessors_consistent (l : list Subnet.t) (uuid : string) :
  let m := newSubnetMatcher l in
  getCIDRRange m uuid
  = getSubnetInfo m uuid ≫= (λ s, buildCIDR (Subnet.subnet s) (Subnet.netmask s))
  ∧ (∀ s, getSubnetInfo m uuid = Some s →
          Subnet.uuid s = uuid ∧ s ∈ l ∧ builds s)
  ∧ (getSubnetInfo m uuid = None ↔
     ∀ s, s ∈ l → Subnet.uuid s = uuid →
          buildCIDR (Subnet.subnet s) (Subnet.netmask s) = None)
  ∧ (∀ pre s post,
       l = pre ++ s :: post → Subnet.uuid s = uuid → builds s →
       (∀ s', s' ∈ post → Subnet.uuid s' = uuid →
              buildCIDR (Subnet.subnet s') (Subnet.netmask s') = None) →
       getSubnetInfo m uuid = Some s).
Proof.
  intros m. subst m. unfold getCIDRRange, getSubnetInfo. split_and!.
  - by apply buildSubnetMap_in_step.
  - intros s Hs. apply Map_get_elem, metadata_origin in Hs as [Hs|(? & ? & ?)].
    + by apply elem_of_nil in Hs.
    + done.
  - rewrite eq_None_not_Some, Map_get_is_Some, newSubnetMatcher_metadata_keys.
    rewrite elem_of_firstOccurrences, list_elem_of_fmap. split.
    + intros Hnot s Hs Hid.
      destruct (buildCIDR _ _) as [cidr|] eqn:Hb; [|done].
      destruct Hnot. exists (uuid, cidr). split; [done|].
      apply elem_of_retainedRanges. by exists s.
    + intros Hnone ([u cidr] & -> & (s & Hs & Hid & Hb)%elem_of_retainedRanges).
      simpl in *. by rewrite (Hnone s Hs Hid) in Hb.
  - intros pre s post -> Hid [cidr Hs] Hpost. unfold newSubnetMatcher.
    rewrite buildSubnetMap_app.
    change (buildSubnetMap ?m0 (s :: post))
      with (buildSubnetMap (addSubnet m0 s) post).
    rewrite metadata_untouched by done.
    unfold addSubnet. rewrite Hs. simpl. rewrite Map_get_set, Hid.
    by rewrite decide_True.
Qed.

Lemma accessors_consistent_witness :
  getSubnetInfo
    (newSubnetMatcher [Subnet.mk "a" "10.0.0.0" "8"; Subnet.mk "a" "10.1.0.0" "16";
                       Subnet.mk "a" "10.2.0.0" "33"]) "a"
  = Some (Subnet.mk "a" "10.1.0.0" "16").
Proof.
  refine (proj2 (proj2 (proj2
            (accessors_consistent
               [Subnet.mk "a" "10.0.0.0" "8"; Subnet.mk "a" "10.1.0.0" "16";
                Subnet.mk "a" "10.2.0.0" "33"] "a")))
            [Subnet.mk "a" "10.0.0.0" "8"] (Subnet.mk "a" "10.1.0.0" "16")
            [Subnet.mk "a" "10.2.0.0" "33"] eq_refl eq_refl _ _).
  - eexists. vm_compute. reflexivity.
  - intros s' Hs' _. apply list_elem_of_singleton in Hs' as ->.
    vm_compute. reflexivity.
Defined.

Lemma newSubnetMatcher_NoDup (l : list Subnet.t) :
  NoDup (subnets (newSubnetMatcher l)).*1.
Proof. rewrite newSubnetMatcher_keys. apply NoDup_firstOccurrences. Qed.

Lemma findSubnetForIP_resolves (l : list Subnet.t) (ipAddress uuid : string) :
  findSubnetForIP (newSubnetMatcher l) ipAddress = Some uuid →
  ∃ s cidr ip,
    getSubnetInfo (newSubnetMatcher l) uuid = Some s
    ∧ getCIDRRange (newSubnetMatcher l) uuid = Some cidr
    ∧ buildCIDR (Subnet.subnet s) (Subnet.netmask s) = Some cidr
    ∧ Subnet.uuid s = uuid ∧ s ∈ l
    ∧ IPv4 ipAddress = Some ip ∧ inRange cidr ip.
Proof.
  intros (ip & cidr & Hip & Hin & Hrange)%findSubnetForIP_Some.
  apply elem_Map_get in Hin; [|apply newSubnetMatcher_NoDup].
  pose proof (buildSubnetMap_in_step {| subnets := []; subnetMetadata := [] |} l
                (λ _, eq_refl) uuid) as Hsync.
  fold (newSubnetMatcher l) in Hsync. rewrite Hin in Hsync.
  unfold getSubnetInfo, getCIDRRange.
  destruct (Map_get (subnetMetadata (newSubnetMatcher l)) uuid) as [s|] eqn:Hs;
    [|done].
  simpl in Hsync. exists s, cidr, ip.
  apply Map_get_elem, metadata_origin in Hs as [Hs|(? & ? & ?)].
  { by apply elem_of_nil in Hs. }
  done.
Qed.

(** X4. An id that [findSubnetForIP] answers with is known to both
    accessors: [getSubnetInfo] gives a record of the input with that id,
    [getCIDRRange] gives the range built from that record, and the address
    lies in that range. *)
Theorem findSubnetForIP_has_info (l : list Subnet.t) (ipAddress uuid : string) :
  findSubnetForIP (newSubnetMatcher l) ipAddress = Some uuid →
  ∃ s cidr ip,
    getSubnetInfo (newSubnetMatcher l) uuid = Some s
    ∧ getCIDRRange (newSubnetMatcher l) uuid = Some cidr
    ∧ buildCIDR (Subnet.subnet s) (Subnet.netmask s) = Some cidr
    ∧ Subnet.uuid s = uuid ∧ s ∈ l
    ∧ IPv4 ipAddress = Some ip ∧ inRange cidr ip.
Proof.
  intros Hfind.
  destruct (findSubnetForIP_resolves l ipAddress uuid Hfind)
    as (s & cidr & ip & Hinfo & Hcidr & Hb & Hid & Hs & Hip & Hrange).
  exists s, cidr, ip. split_and!; assumption.
Qed.

Lemma findSubnetForIP_has_info_witness :
  ∃ s cidr ip,
    getSubnetInfo (newSubnetMatcher [Subnet.mk "uuid-1" "192.168.0.0" "16"]) "uuid-1"
    = Some s
    ∧ getCIDRRange (newSubnetMatcher [Subnet.mk "uuid-1" "192.168.0.0" "16"]) "uuid-1"
      = Some cidr
    ∧ buildCIDR (Subnet.subnet s) (Subnet.netmask s) = Some cidr
    ∧ Subnet.uuid s = "uuid-1" ∧ s ∈ [Subnet.mk "uuid-1" "192.168.0.0" "16"]
    ∧ IPv4 "192.168.255.255" = Some ip ∧ inRange cidr ip.
Proof.
  exact (findSubnetForIP_has_info [Subnet.mk "uuid-1" "192.168.0.0" "16"]
           "192.168.255.255" "uuid-1" eq_refl).
Defined.

Lemma metadata_values_ids (m : Map string Subnet.t) :
  Forall (λ entry, Subnet.uuid entry.2 = entry.1) m →
  Subnet.uuid <$> m.*2 = m.*1.
Proof.
  induction 1 as [|[u s] m Hs _ IH]; [done|]. csimpl. simpl in Hs.
  by rewrite IH, Hs.
Qed.

Lemma metadata_buildSubnetMap (m : SubnetMatcher) (l : list Subnet.t) :
  NoDup ((subnetMetadata m).*1 ++ (retainedRanges l).*1) →
  (subnetMetadata (buildSubnetMap m l)).*2
  = (subnetMetadata m).*2 ++ filter builds l.
Proof.
  revert m. induction l as [|s l IH]; intros m Hnd.
  - simpl. by rewrite app_nil_r.
  - change (buildSubnetMap m (s :: l)) with (buildSubnetMap (addSubnet m s) l).
    rewrite retainedRanges_cons in Hnd. rewrite filter_cons.
    unfold addSubnet.
    destruct (buildCIDR _ _) as [cidr|] eqn:Hs.
    + rewrite decide_True by (unfold builds; rewrite Hs; by eexists).
      csimpl in Hnd. apply NoDup_app in Hnd as (Hm & Hdisj & Hl).
      apply NoDup_cons in Hl as [Hfresh Hl].
      assert (Hnew : Subnet.uuid s ∉ (subnetMetadata m).*1).
      { intros Hin. apply (Hdisj _ Hin). left. }
      rewrite IH; simpl; rewrite Map_set_fresh by done.
      * rewrite fmap_app. simpl. by rewrite <- app_assoc.
      * rewrite fmap_app. simpl. rewrite <- app_assoc. simpl.
        apply NoDup_app. split_and!; [done| |by apply NoDup_cons].
        intros x Hx. by apply Hdisj.
    + rewrite decide_False by (unfold builds; rewrite Hs; by intros [? ?]).
      by apply IH.
Qed.

(** X5. [getAllSubnets] lists records of the input that construction keeps,
    one per id, in the order in which the ids were first added; with
    pairwise distinct ids it is exactly the list of kept records in input
    order. *)
Theorem getAllSubnets_construction_order (l : list Subnet.t) :
  let m := newSubnetMatcher l in
  Subnet.uuid <$> getAllSubnets m = firstOccurrences (retainedRanges l).*1
  ∧ NoDup (Subnet.uuid <$> getAllSubnets m)
  ∧ (∀ s, s ∈ getAllSubnets m → s ∈ l ∧ builds s)
  ∧ (∀ s, s ∈ l → builds s →
          ∃ s', s' ∈ getAllSubnets m ∧ Subnet.uuid s' = Subnet.uuid s)
  ∧ (NoDup (retainedRanges l).*1 → getAllSubnets m = filter builds l).
Proof.
  intros m. subst m. unfold getAllSubnets.
  assert (Hids : Subnet.uuid <$> (subnetMetadata (newSubnetMatcher l)).*2
                 = firstOccurrences (retainedRanges l).*1).
  { rewrite metadata_values_ids; [apply newSubnetMatcher_metadata_keys|].
    apply Forall_forall. intros [u s] Hin. simpl.
    apply metadata_origin in Hin as [Hin|(_ & ? & _)]; [|done].
    by apply elem_of_nil in Hin. }
  split_and!.
  - done.
  - rewrite Hids. apply NoDup_firstOccurrences.
  - intros s ([u s'] & -> & Hin)%list_elem_of_fmap. simpl.
    apply metadata_origin in Hin as [Hin|(? & _ & ?)]; [|done].
    by apply elem_of_nil in Hin.
  - intros s Hs [cidr Hb].
    assert (Hin : Subnet.uuid s ∈ Subnet.uuid <$> (subnetMetadata (newSubnetMatcher l)).*2).
    { rewrite Hids, elem_of_firstOccurrences, list_elem_of_fmap.
      exists (Subnet.uuid s, cidr). split; [done|].
      apply elem_of_retainedRanges. by exists s. }
    apply list_elem_of_fmap in Hin as (s' & Hid & Hs'). by exists s'.
  - intros Hnd. unfold newSubnetMatcher.
    by rewrite metadata_buildSubnetMap.
Qed.

(** ** Which records are kept *)

Lemma netmaskToCIDR_range (netmask : string) (n : Z) :
  test_dotted_quad netmask = true → netmaskToCIDR netmask = Some n →
  0 ≤ n ≤ 32.
Proof.
  intros (o1 & o2 & o3 & o4 & Hd & Hp)%test_dotted_quad_spec Hn.
  apply (netmaskToCIDR_dotted netmask o1 o2 o3 o4 Hd Hp) in Hn as [_ [Hn _]].
  done.
Qed.

Lemma test_dotted_quad_not_digits (netmask : string) :
  test_dotted_quad netmask = true → test_digits netmask = false.
Proof.
  intros (o1 & o2 & o3 & o4 & Hd & _)%test_dotted_quad_spec.
  by eapply dotted_not_digits.
Qed.

Lemma parseInt_nonneg (netmask : string) :
  test_digits netmask = true → 0 ≤ parseInt netmask.
Proof.
  unfold test_digits, parseInt. rewrite andb_true_iff. intros [Hd _].
  by apply digits_value_nonneg.
Qed.

(** X6. Construction keeps a record exactly when its base address is a
    valid IPv4 string and its mask is either a string of digits with a value
    of at most 32 or a dotted quad that [netmaskToCIDR] converts; the range
    then has that address and that prefix, so the library call never
    throws.  A record that is not kept leaves the matcher as it would be
    without it. *)
Theorem buildCIDR_keeps_exactly (subnet netmask : string) (cidr : IPv4CidrRange) :
  (buildCIDR subnet netmask = Some cidr ↔
   IPv4 subnet = Some (ipv4 cidr)
   ∧ ((test_digits netmask = true ∧ parseInt netmask = cidrPrefix cidr
       ∧ cidrPrefix cidr ≤ 32)
      ∨ (test_dotted_quad netmask = true
         ∧ netmaskToCIDR netmask = Some (cidrPrefix cidr))))
  ∧ (∀ uuid before after,
       buildCIDR subnet netmask = None →
       newSubnetMatcher (before ++ Subnet.mk uuid subnet netmask :: after)
       = newSubnetMatcher (before ++ after)).
Proof.
  split.
  - unfold buildCIDR, fromCidr. destruct cidr as [a p]. simpl.
    destruct (IPv4 subnet) as [ip|] eqn:Hip; [|split; [done|by intros [? _]]].
    destruct (test_digits netmask) eqn:Hdigits.
    + pose proof (parseInt_nonneg netmask Hdigits) as Hnn.
      rewrite (proj2 (Z.ltb_ge (parseInt netmask) 0)) by done. simpl.
      destruct (32 <? parseInt netmask) eqn:Hle.
      * apply Z.ltb_lt in Hle. split; [done|].
        intros [_ [(_ & ? & ?)|(Hdot & _)]]; [lia|].
        apply test_dotted_quad_not_digits in Hdot. congruence.
      * apply Z.ltb_ge in Hle.
        rewrite (proj2 (Z.leb_le 0 _)), (proj2 (Z.leb_le _ 32)) by done. simpl.
        split.
        -- intros [= <- <-]. split; [done|]. left. done.
        -- intros [[= <-] [(_ & <- & _)|(Hdot & _)]]; [done|].
           apply test_dotted_quad_not_digits in Hdot. congruence.
    + destruct (test_dotted_quad netmask) eqn:Hdot.
      * destruct (netmaskToCIDR netmask) as [n|] eqn:Hn.
        -- destruct (netmaskToCIDR_range netmask n Hdot Hn) as [H0 H32].
           simpl.
           rewrite (proj2 (Z.leb_le 0 _)), (proj2 (Z.leb_le _ 32)) by done. simpl.
           split.
           ++ intros [= <- <-]. split; [done|]. right. done.
           ++ intros [[= <-] [(? & _)|(_ & [= <-])]]; done.
        -- split; [done|]. intros [_ [(? & _)|(_ & ?)]]; done.
      * split; [done|]. intros [_ [(? & _)|(? & _)]]; done.
  - intros uuid before after Hnone. unfold newSubnetMatcher.
    rewrite !buildSubnetMap_app.
    change (buildSubnetMap ?m (?s :: after))
      with (buildSubnetMap (addSubnet m s) after).
    unfold addSubnet. cbn [Subnet.subnet Subnet.netmask]. by rewrite Hnone.
Qed.

(** The map of ranges depends on the records only through the id and the
    range of those that are kept. *)
Lemma subnets_fold (m : SubnetMatcher) (l : list Subnet.t) :
  subnets (buildSubnetMap m l)
  = foldl (λ acc entry, Map_set acc entry.1 entry.2) (subnets m) (retainedRanges l).
Proof.
  revert m. induction l as [|s l IH]; intros m; [done|].
  change (buildSubnetMap m (s :: l)) with (buildSubnetMap (addSubnet m s) l).
  rewrite IH, retainedRanges_cons. unfold addSubnet.
  by destruct (buildCIDR _ _).
Qed.

(** X7. A prefix length and a dotted netmask that converts to it are
    interchangeable: they give the same range, and replacing one notation by
    the other in a record changes no answer of [findSubnetForIP]. *)
Theorem notations_interchangeable (subnet prefix netmask : string) :
  test_digits prefix = true →
  test_dotted_quad netmask = true →
  netmaskToCIDR netmask = Some (parseInt prefix) →
  buildCIDR subnet netmask = buildCIDR subnet prefix
  ∧ ∀ uuid before after ipAddress,
      findSubnetForIP
        (newSubnetMatcher (before ++ Subnet.mk uuid subnet netmask :: after))
        ipAddress
      = findSubnetForIP
          (newSubnetMatcher (before ++ Subnet.mk uuid subnet prefix :: after))
          ipAddress.
Proof.
  intros Hdigits Hdot Hn.
  assert (Hsame : buildCIDR subnet netmask = buildCIDR subnet prefix).
  { destruct (netmaskToCIDR_range netmask _ Hdot Hn) as [_ H32].
    unfold buildCIDR.
    rewrite (test_dotted_quad_not_digits netmask Hdot), Hdot, Hn, Hdigits.
    rewrite (proj2 (Z.ltb_ge (parseInt prefix) 0))
      by by apply parseInt_nonneg.
    by rewrite (proj2 (Z.ltb_ge 32 (parseInt prefix))). }
  split; [done|].
  intros uuid before after ipAddress. unfold findSubnetForIP, newSubnetMatcher.
  rewrite !subnets_fold, !retainedRanges_app, !retainedRanges_cons. simpl.
  by rewrite Hsame.
Qed.

Lemma notations_interchangeable_witness :
  buildCIDR "192.168.1.0" "255.255.255.0" = buildCIDR "192.168.1.0" "24".
Proof.
  refine (proj1 (notations_interchangeable "192.168.1.0" "24" "255.255.255.0"
                   _ _ _)); vm_compute; reflexivity.
Defined.

(** X8. A retained range of prefix 0 contains every valid address, so a
    matcher that retains one answers every valid address with some id. *)
Theorem prefix_zero_matches_all (l : list Subnet.t) (uuid : string)
    (cidr : IPv4CidrRange) (ipAddress : string) :
  (uuid, cidr) ∈ subnets (newSubnetMatcher l) →
  cidrPrefix cidr = 0 →
  isValidIP ipAddress = true →
  (∀ ip, IPv4 ipAddress = Some ip → inRange cidr ip)
  ∧ is_Some (findSubnetForIP (newSubnetMatcher l) ipAddress).
Proof.
  intros Hin H0 Hvalid.
  pose proof Hin as [Ha HN]%retained_range_wf.
  assert (Hall : ∀ ip, IPv4 ipAddress = Some ip → inRange cidr ip).
  { intros ip [Hlo Hhi]%IPv4_range. unfold inRange.
    rewrite (getLast_eq cidr Ha HN), (getFirst_eq cidr Ha HN), H0.
    change (2 ^ (32 - 0)) with (2 ^ 32).
    rewrite (Z.div_small (ipv4 cidr)) by done. lia. }
  split; [done|].
  unfold isValidIP in Hvalid. unfold findSubnetForIP.
  destruct (IPv4 ipAddress) as [ip|] eqn:Hip; [|done].
  destruct (firstContaining _ ip) eqn:Hnone; [done|].
  rewrite firstContaining_None, Forall_forall in Hnone.
  apply Hnone in Hin. simpl in Hin.
  specialize (Hall ip eq_refl). apply inRange_contains in Hall. congruence.
Qed.

Lemma prefix_zero_matches_all_witness :
  is_Some (findSubnetForIP (newSubnetMatcher [Subnet.mk "all" "10.1.2.3" "0"])
             "255.255.255.255").
Proof.
  refine (proj2 (prefix_zero_matches_all [Subnet.mk "all" "10.1.2.3" "0"] "all"
                   {| ipv4 := 167838211; cidrPrefix := 0 |} "255.255.255.255"
                   _ eq_refl _)).
  - vm_compute. left.
  - vm_compute. reflexivity.
Defined.

(** ** What a migration run returns *)

Lemma migrate_closed (randomUUID : nat → string) (this : DHCPMigrator)
    (l : list StaticMapping.t) :
  let result := migrate randomUUID this l in
  MigrationResult.reservations result =
    imap (λ k mapping,
            makeReservation (randomUUID k)
              (default "" (resolvedSubnet this mapping)) mapping)
         (filter (λ mapping, isReserved this mapping) l)
  ∧ MigrationResult.unmatchedIPs result =
      (StaticMapping.ipaddr <$> filter (λ mapping, isUnmatched this mapping) l)
  ∧ MigrationResult.warnings result = omap id (imap (warningFor this) l)
  ∧ MigrationResult.errors result =
      (invalidIPError <$> filter (λ mapping, hasInvalidIP mapping) l).
Proof.
  simpl.
  destruct (migrateLoop_closed randomUUID this l 0 initialState)
    as (Hr & Hu & Hw & He).
  by rewrite Hr, Hu, Hw, He.
Qed.

Lemma isReserved_inv (this : DHCPMigrator) (mapping : StaticMapping.t) :
  isReserved this mapping = true →
  ∃ uuid,
    resolvedSubnet this mapping = Some uuid ∧ uuid ≠ ""
    ∧ findSubnetForIP (subnetMatcher this) (StaticMapping.ipaddr mapping) = Some uuid
    ∧ StaticMapping.mac mapping ≠ "" ∧ StaticMapping.ipaddr mapping ≠ ""
    ∧ isValidMAC (StaticMapping.mac mapping) = true
    ∧ isValidIP (StaticMapping.ipaddr mapping) = true.
Proof.
  unfold isReserved, resolvedSubnet, wellFormed.
  destruct (truthy (StaticMapping.mac mapping)) eqn:Hmac; [|done].
  destruct (truthy (StaticMapping.ipaddr mapping)) eqn:Hip; [|done].
  destruct (isValidMAC _) eqn:Hvm; [|done].
  destruct (isValidIP _) eqn:Hvi; [|done]. simpl.
  destruct (findSubnetForIP _ _) as [uuid|] eqn:Hfind; [|done].
  destruct (truthy uuid) eqn:Hu; [|done]. intros _.
  apply truthy_true in Hmac, Hip, Hu. by exists uuid.
Qed.

Lemma reservation_origin (randomUUID : nat → string) (this : DHCPMigrator)
    (l : list StaticMapping.t) (r : Reservation.t) :
  r ∈ MigrationResult.reservations (migrate randomUUID this l) →
  ∃ k mapping uuid,
    mapping ∈ l ∧ isReserved this mapping = true
    ∧ resolvedSubnet this mapping = Some uuid
    ∧ r = makeReservation (randomUUID k) uuid mapping.
Proof.
  destruct (migrate_closed randomUUID this l) as (-> & _).
  intros (k & mapping & -> & Hk)%elem_of_lookup_imap.
  apply list_elem_of_lookup_2, list_elem_of_filter in Hk as [Hres Hin].
  apply Is_true_true in Hres.
  destruct (isReserved_inv this mapping Hres) as (uuid & Hu & _).
  exists k, mapping, uuid. by rewrite Hu.
Qed.

(** X9. Every reservation that [migrate] returns comes from a mapping of
    the input: it carries that mapping's hardware address and IP, both of
    which passed validation, and the non-empty id that [findSubnetForIP]
    gives for the IP.  A hostname is carried over only when it is not
    empty; the description is the mapping's [description] when that is not
    empty and its [descr] otherwise; an empty optional value is never
    written. *)
Theorem migrate_reservations_sound (randomUUID : nat → string)
    (this : DHCPMigrator) (l : list StaticMapping.t) (r : Reservation.t) :
  r ∈ MigrationResult.reservations (migrate randomUUID this l) →
  ∃ mapping,
    mapping ∈ l
    ∧ Reservation.hw_address r = StaticMapping.mac mapping
    ∧ Reservation.ip_address r = StaticMapping.ipaddr mapping
    ∧ isValidMAC (Reservation.hw_address r) = true
    ∧ isValidIP (Reservation.ip_address r) = true
    ∧ findSubnetForIP (subnetMatcher this) (Reservation.ip_address r)
      = Some (Reservation.subnet r)
    ∧ Reservation.subnet r ≠ ""
    ∧ (∀ h, Reservation.hostname r = Some h ↔
            StaticMapping.hostname mapping = Some h ∧ h ≠ "")
    ∧ (∀ d, Reservation.description r = Some d ↔
            d ≠ "" ∧
            (StaticMapping.description mapping = Some d
             ∨ ((StaticMapping.description mapping = None
                 ∨ StaticMapping.description mapping = Some "")
                ∧ StaticMapping.descr mapping = Some d))).
Proof.
  intros (k & mapping & uuid & Hin & Hres & Hu & ->)%reservation_origin.
  destruct (isReserved_inv this mapping Hres)
    as (uuid' & Hu' & Hne & Hfind & _ & _ & Hvm & Hvi).
  assert (uuid' = uuid) as -> by congruence.
  exists mapping. simpl. split_and!; [done..| |].
  - intros h. destruct (StaticMapping.hostname mapping) as [h'|]; simpl.
    + destruct (truthy h') eqn:Hh.
      * apply truthy_true in Hh. split; [by intros [= <-]|by intros [[= <-] _]].
      * apply truthy_false in Hh. split; [done|]. intros [[= <-] ?]. done.
    + split; [done|by intros [? _]].
  - intros d. unfold or_else.
    destruct (StaticMapping.description mapping) as [d1|]; simpl.
    + destruct (truthy d1) eqn:H1; simpl.
      * rewrite H1. apply truthy_true in H1. split.
        -- intros [= <-]. split; [done|by left].
        -- intros [_ [[= <-]|[[?|[= ->]] _]]]; done.
      * apply truthy_false in H1 as ->.
        destruct (StaticMapping.descr mapping) as [d2|]; simpl.
        -- destruct (truthy d2) eqn:H2.
           ++ apply truthy_true in H2. split.
              ** intros [= <-]. split; [done|]. right. split; [by right|done].
              ** intros [Hd [[= <-]|[_ [= <-]]]]; done.
           ++ apply truthy_false in H2 as ->. split; [done|].
              intros [Hd [[= <-]|[_ [= <-]]]]; done.
        -- split; [done|]. intros [Hd [[= <-]|[_ ?]]]; done.
    + destruct (StaticMapping.descr mapping) as [d2|]; simpl.
      * destruct (truthy d2) eqn:H2.
        -- apply truthy_true in H2. split.
           ++ intros [= <-]. split; [done|]. right. split; [by left|done].
           ++ intros [Hd [?|[_ [= <-]]]]; done.
        -- apply truthy_false in H2 as ->. split; [done|].
           intros [Hd [?|[_ [= <-]]]]; done.
      * split; [done|]. intros [Hd [?|[_ ?]]]; done.
Qed.

Lemma migrate_reservations_sound_witness :
  ∃ mapping,
    mapping ∈ [StaticMapping.mk "AA:BB:CC:DD:EE:FF" "10.0.0.5" (Some "")
                 (Some "") None (Some "printer")]
    ∧ StaticMapping.mac mapping = "AA:BB:CC:DD:EE:FF".
Proof.
  destruct (migrate_reservations_sound (λ n, pretty n)
              (newDHCPMigrator [Subnet.mk "s1" "10.0.0.0" "8"] false)
              [StaticMapping.mk "AA:BB:CC:DD:EE:FF" "10.0.0.5" (Some "")
                 (Some "") None (Some "printer")]
              (Reservation.mk "0" "s1" "AA:BB:CC:DD:EE:FF" "10.0.0.5" None
                 (Some "printer")))
    as (mapping & Hin & Hmac & _).
  - vm_compute. left.
  - exists mapping. split; [done|]. by rewrite <- Hmac.
Defined.

(** X10. The subnet id of every reservation is the id of a subnet record of
    the input that the matcher kept: [getSubnetInfo] finds the record, and
    the reserved IP lies in the range built from it. *)
Theorem migrate_reservations_resolve (randomUUID : nat → string)
    (subnetList : list Subnet.t) (verbose : bool) (l : list StaticMapping.t)
    (r : Reservation.t) :
  let this := newDHCPMigrator subnetList verbose in
  r ∈ MigrationResult.reservations (migrate randomUUID this l) →
  ∃ s cidr ip,
    getSubnetInfo (subnetMatcher this) (Reservation.subnet r) = Some s
    ∧ s ∈ subnetList ∧ Subnet.uuid s = Reservation.subnet r
    ∧ buildCIDR (Subnet.subnet s) (Subnet.netmask s) = Some cidr
    ∧ IPv4 (Reservation.ip_address r) = Some ip ∧ inRange cidr ip.
Proof.
  intros this (k & mapping & uuid & Hin & Hres & Hu & ->)%reservation_origin.
  destruct (isReserved_inv this mapping Hres) as (uuid' & Hu' & _ & Hfind & _).
  assert (uuid' = uuid) as -> by congruence.
  apply findSubnetForIP_resolves in Hfind
    as (s & cidr & ip & Hinfo & _ & Hb & Hid & Hs & Hip & Hrange).
  by exists s, cidr, ip.
Qed.

Lemma migrate_reservations_resolve_witness :
  ∃ s cidr ip,
    getSubnetInfo (newSubnetMatcher [Subnet.mk "s1" "10.0.0.0" "8"]) "s1" = Some s
    ∧ s ∈ [Subnet.mk "s1" "10.0.0.0" "8"] ∧ Subnet.uuid s = "s1"
    ∧ buildCIDR (Subnet.subnet s) (Subnet.netmask s) = Some cidr
    ∧ IPv4 "10.0.0.5" = Some ip ∧ inRange cidr ip.
Proof.
  refine (migrate_reservations_resolve (λ n, pretty n)
            [Subnet.mk "s1" "10.0.0.0" "8"] false
            [StaticMapping.mk "AA:BB:CC:DD:EE:FF" "10.0.0.5" None None None None]
            (Reservation.mk "0" "s1" "AA:BB:CC:DD:EE:FF" "10.0.0.5" None None) _).
  vm_compute. left.
Defined.

(** X11. The identifiers of the reservations are the results of the first
    calls to [randomUUID], in order, one call per reservation; when
    [randomUUID] never repeats a value no two reservations share an
    identifier. *)
Theorem migrate_uuids (randomUUID : nat → string) (this : DHCPMigrator)
    (l : list StaticMapping.t) :
  let result := migrate randomUUID this l in
  Reservation.uuid <$> MigrationResult.reservations result
  = randomUUID <$> seq 0 (length (MigrationResult.reservations result))
  ∧ ((∀ i j, randomUUID i = randomUUID j → i = j) →
     NoDup (Reservation.uuid <$> MigrationResult.reservations result)).
Proof.
  intros result.
  assert (Huuids : Reservation.uuid <$> MigrationResult.reservations result
                   = randomUUID <$> seq 0 (length (MigrationResult.reservations result))).
  { subst result. destruct (migrate_closed randomUUID this l) as (-> & _).
    rewrite fmap_imap, length_imap, <- imap_seq_0.
    by apply imap_ext. }
  split; [done|]. intros Hinj. rewrite Huuids.
  apply NoDup_fmap_2_strong; [|apply NoDup_seq].
  intros i j _ _. apply Hinj.
Qed.

Lemma migrateOne_unmatched_warned (randomUUID : nat → string) (this : DHCPMigrator)
    (i : nat) (mapping : StaticMapping.t) (st : MigrateState) :
  let st' := migrateOne randomUUID this i mapping st in
  (length (st_unmatchedIPs st') + length (st_warnings st)
   ≤ length (st_unmatchedIPs st) + length (st_warnings st'))%nat.
Proof.
  unfold migrateOne.
  repeat case_match; simpl; rewrite ?length_app; simpl; lia.
Qed.

Lemma migrateLoop_unmatched_warned (randomUUID : nat → string) (this : DHCPMigrator)
    (l : list StaticMapping.t) (i : nat) (st : MigrateState) :
  let st' := migrateLoop randomUUID this i l st in
  (length (st_unmatchedIPs st') + length (st_warnings st)
   ≤ length (st_unmatchedIPs st) + length (st_warnings st'))%nat.
Proof.
  revert i st. induction l as [|mapping l IH]; intros i st; simpl; [lia|].
  pose proof (IH (S i) (migrateOne randomUUID this i mapping st)).
  pose proof (migrateOne_unmatched_warned randomUUID this i mapping st).
  simpl in *. lia.
Qed.

(** X12. For the result of [migrate] on the same mapping list, [getStats]
    reports as failed exactly the mappings that left a warning or an error:
    failed = warnings + errors, successful + failed = total, and unmatched
    IPs are among the warned mappings. *)
Theorem getStats_of_migrate (randomUUID : nat → string) (this : DHCPMigrator)
    (l : list StaticMapping.t) :
  let stats := getStats this l (migrate randomUUID this l) in
  MigrationStats.failedMigrations stats
  = MigrationStats.warnings stats + MigrationStats.errors stats
  ∧ MigrationStats.successfulMigrations stats + MigrationStats.failedMigrations stats
    = MigrationStats.totalStaticMappings stats
  ∧ 0 ≤ MigrationStats.successfulMigrations stats
        ≤ MigrationStats.totalStaticMappings stats
  ∧ MigrationStats.unmatchedIPs stats ≤ MigrationStats.warnings stats.
Proof.
  simpl.
  pose proof (migrateLoop_accounts randomUUID this l 0 initialState) as Hacc.
  pose proof (migrateLoop_unmatched_warned randomUUID this l 0 initialState) as Hun.
  simpl in Hacc, Hun. lia.
Qed.

Lemma filter_none {A} (P : A → Prop) `{!∀ x, Decision (P x)} (l : list A) :
  Forall (λ x, ¬ P x) l → filter P l = [].
Proof.
  induction 1 as [|x l Hx _ IH]; [done|]. by rewrite filter_cons_False.
Qed.

Lemma no_reservation (randomUUID : nat → string) (this : DHCPMigrator)
    (l : list StaticMapping.t) :
  (∀ mapping, mapping ∈ l → isReserved this mapping = false) →
  MigrationResult.reservations (migrate randomUUID this l) = [].
Proof.
  intros Hnone. destruct (migrate_closed randomUUID this l) as (-> & _).
  rewrite filter_none; [done|]. apply Forall_forall. intros mapping Hin.
  apply Is_true_false. by apply Hnone.
Qed.

Lemma empty_matcher_finds_nothing (m : SubnetMatcher) (ipAddress : string) :
  subnets m = [] → findSubnetForIP m ipAddress = None.
Proof.
  intros Hm. unfold findSubnetForIP. rewrite Hm. by destruct (IPv4 ipAddress).
Qed.

(** X13. The pre-flight check only refuses inputs from which no reservation
    can come: whenever [validateMigration] reports the input as not valid,
    [migrate] on the same input creates no reservation.  When the matcher
    retained no range, every mapping that passes the checks is reported as
    unmatched. *)
Theorem validateMigration_guards_migrate (randomUUID : nat → string)
    (subnetList : list Subnet.t) (verbose : bool) (l : list StaticMapping.t) :
  let this := newDHCPMigrator subnetList verbose in
  (valid (validateMigration this l) = false →
   MigrationResult.reservations (migrate randomUUID this l) = []
   ∧ MigrationResult.reservationsCreated (migrate randomUUID this l) = 0)
  ∧ (subnets (subnetMatcher this) = [] →
     MigrationResult.unmatchedIPs (migrate randomUUID this l)
     = (StaticMapping.ipaddr <$> filter (λ mapping, wellFormed mapping) l)).
Proof.
  intros this.
  assert (Hempty : subnets (subnetMatcher this) = [] →
                   ∀ mapping, isReserved this mapping = false).
  { intros Hm mapping. unfold isReserved, resolvedSubnet.
    rewrite empty_matcher_finds_nothing by done. by destruct (wellFormed mapping). }
  split.
  - intros Hinvalid.
    assert (Hnone : ∀ mapping, mapping ∈ l → isReserved this mapping = false).
    { unfold validateMigration in Hinvalid. cbv zeta in Hinvalid.
      destruct (length (getAllSubnets (subnetMatcher this)) =? 0)%nat eqn:Hsub.
      { intros mapping _. apply Hempty.
        apply getAllSubnets_empty. by apply Nat.eqb_eq. }
      destruct (length l =? 0)%nat eqn:Hl.
      { apply Nat.eqb_eq in Hl. destruct l; [|done].
        by intros mapping ?%elem_of_nil. }
      destruct (countValidMappings l =? 0)%nat eqn:Hcount.
      - apply Nat.eqb_eq, countValidMappings_zero in Hcount.
        rewrite Forall_forall in Hcount. intros mapping Hin.
        unfold isReserved, resolvedSubnet, wellFormed.
        destruct (Hcount mapping Hin) as [Hm|Hm]; apply truthy_false in Hm;
          rewrite Hm; simpl; rewrite ?andb_false_r; done.
      - simpl in Hinvalid. done. }
    assert (Hres : MigrationResult.reservations (migrate randomUUID this l) = [])
      by by apply no_reservation.
    split; [done|]. simpl in *. by rewrite Hres.
  - intros Hm. destruct (migrate_closed randomUUID this l) as (_ & -> & _).
    f_equal. apply list_filter_iff. intros mapping.
    unfold isUnmatched. rewrite (Hempty Hm mapping). simpl.
    by rewrite andb_true_r.
Qed.

(** X14. A batch is processed record by record without interference: on the
    concatenation of two lists the errors and the unmatched IPs are those of
    the first list followed by those of the second, and the reservations
    are those of the first list followed by those of the second with the
    identifiers drawn after the first list's; warnings add up in number. *)
Theorem migrate_app (randomUUID : nat → string) (this : DHCPMigrator)
    (l1 l2 : list StaticMapping.t) :
  let first := migrate randomUUID this l1 in
  let drawn := length (MigrationResult.reservations first) in
  let second := migrate (λ k, randomUUID (drawn + k)%nat) this l2 in
  let both := migrate randomUUID this (l1 ++ l2) in
  MigrationResult.reservations both
  = MigrationResult.reservations first ++ MigrationResult.reservations second
  ∧ MigrationResult.unmatchedIPs both
    = MigrationResult.unmatchedIPs first ++ MigrationResult.unmatchedIPs second
  ∧ MigrationResult.errors both
    = MigrationResult.errors first ++ MigrationResult.errors second
  ∧ length (MigrationResult.warnings both)
    = (length (MigrationResult.warnings first)
       + length (MigrationResult.warnings second))%nat.
Proof.
  intros first drawn second both.
  destruct (migrate_closed randomUUID this l1) as (Hr1 & Hu1 & Hw1 & He1).
  destruct (migrate_closed randomUUID this (l1 ++ l2)) as (Hr & Hu & Hw & He).
  fold first in Hr1, Hu1, Hw1, He1. fold both in Hr, Hu, Hw, He.
  assert (Hdrawn : drawn = length (filter (λ mapping, isReserved this mapping) l1)).
  { subst drawn. by rewrite Hr1, length_imap. }
  clearbody drawn. subst drawn.
  destruct (migrate_closed
              (λ k, randomUUID
                      (length (filter (λ mapping, isReserved this mapping) l1) + k)%nat)
              this l2) as (Hr2 & Hu2 & Hw2 & He2).
  fold second in Hr2, Hu2, Hw2, He2.
  assert (Hlr : MigrationResult.reservations both
                = MigrationResult.reservations first
                  ++ MigrationResult.reservations second).
  { by rewrite Hr, Hr1, Hr2, filter_app, imap_app. }
  assert (Hle : MigrationResult.errors both
                = MigrationResult.errors first ++ MigrationResult.errors second).
  { by rewrite He, He1, He2, filter_app, fmap_app. }
  split_and!; [done| |done|].
  - by rewrite Hu, Hu1, Hu2, filter_app, fmap_app.
  - pose proof (migrateLoop_accounts randomUUID this (l1 ++ l2) 0 initialState)
      as Hacc.
    pose proof (migrateLoop_accounts randomUUID this l1 0 initialState) as Hacc1.
    pose proof (migrateLoop_accounts
                  (λ k, randomUUID
                          (length (filter (λ mapping, isReserved this mapping) l1)
                           + k)%nat)
                  this l2 0 initialState) as Hacc2.
    apply (f_equal length) in Hlr, Hle. rewrite length_app in Hlr, Hle, Hacc.
    subst first second both. simpl in *. lia.
Qed.

(** ** The report *)

Example generateReport_runs :
  let this := newDHCPMigrator [Subnet.mk "s1" "10.0.0.0" "8"] false in
  let l := [StaticMapping.mk "AA:BB:CC:DD:EE:FF" "10.0.0.5" (Some "web") None None None;
            StaticMapping.mk "AA:BB:CC:DD:EE:00" "172.16.0.1" None None None None] in
  generateReport this l (migrate (λ n, pretty n) this l)
  = nl +:+ repeat_string "=" 60 +:+ nl +:+ "MIGRATION REPORT" +:+ nl
    +:+ repeat_string "=" 60 +:+ nl +:+ nl
    +:+ "Statistics:" +:+ nl
    +:+ "  • Total ISC static mappings: 2" +:+ nl
    +:+ "  • Total Kea subnets: 1" +:+ nl
    +:+ "  • Successful migrations: 1" +:+ nl
    +:+ "  • Failed migrations: 1" +:+ nl
    +:+ "  • Unmatched IPs: 1" +:+ nl
    +:+ "  • Warnings: 1" +:+ nl
    +:+ "  • Errors: 0" +:+ nl +:+ nl
    +:+ "Created Reservations:" +:+ nl
    +:+ "  1. 10.0.0.5 (AA:BB:CC:DD:EE:FF) - web → Subnet: 10.0.0.0/8" +:+ nl +:+ nl
    +:+ "Unmatched IPs (no subnet found):" +:+ nl
    +:+ "  • 172.16.0.1" +:+ nl +:+ nl
    +:+ "Warnings:" +:+ nl
    +:+ "  • No subnet found for IP: 172.16.0.1 (MAC: AA:BB:CC:DD:EE:00)" +:+ nl +:+ nl
    +:+ repeat_string "=" 60 +:+ nl.
Proof. vm_compute. reflexivity. Qed.

Lemma string_app_cons (c : ascii) (s t : string) :
  String c s +:+ t = String c (s +:+ t).
Proof. reflexivity. Qed.

Lemma string_app_nil_l (s : string) : "" +:+ s = s.
Proof. reflexivity. Qed.

Lemma string_app_nil_r (s : string) : s +:+ "" = s.
Proof.
  induction s as [|c s IH]; [done|]. by rewrite string_app_cons, IH.
Qed.

Lemma string_app_assoc (s t u : string) : (s +:+ t) +:+ u = s +:+ (t +:+ u).
Proof.
  induction s as [|c s IH]; [done|]. by rewrite !string_app_cons, IH.
Qed.

Lemma concatStrings_cons (piece : string) (pieces : list string) :
  concatStrings (piece :: pieces) = piece +:+ concatStrings pieces.
Proof. reflexivity. Qed.

Lemma concatStrings_app (xs ys : list string) :
  concatStrings (xs ++ ys) = concatStrings xs +:+ concatStrings ys.
Proof.
  induction xs as [|x xs IH]; [done|].
  change ((x :: xs) ++ ys) with (x :: (xs ++ ys)).
  by rewrite !concatStrings_cons, IH, string_app_assoc.
Qed.

Lemma foldl_reportBullet (items : list string) (report : string) :
  foldl reportBullet report items
  = report +:+ concatStrings (bulletLine <$> items).
Proof.
  revert report. induction items as [|item items IH]; intros report.
  - simpl. by rewrite string_app_nil_r.
  - cbn [foldl fmap list_fmap]. rewrite IH, concatStrings_cons.
    unfold reportBullet, bulletLine. by rewrite !string_app_assoc.
Qed.

Lemma reportReservation_line (this : DHCPMigrator) (report : string)
    (r : Reservation.t) (i : nat) :
  reportReservation this report r i
  = report +:+
    reservationLine i r
      (optionalField Subnet.subnet
         (getSubnetInfo (subnetMatcher this) (Reservation.subnet r)))
      (optionalField Subnet.netmask
         (getSubnetInfo (subnetMatcher this) (Reservation.subnet r))).
Proof.
  unfold reportReservation, reservationLine. cbv zeta.
  destruct (Reservation.hostname r) as [h|]; simpl;
    [destruct (truthy h)|]; by rewrite !string_app_assoc.
Qed.

Lemma forEachIndexed_reservations (this : DHCPMigrator) (rs : list Reservation.t)
    (i : nat) (report : string) :
  forEachIndexed (reportReservation this) rs i report
  = report +:+
    concatStrings
      (imap (λ j r,
               reservationLine (i + j) r
                 (optionalField Subnet.subnet
                    (getSubnetInfo (subnetMatcher this) (Reservation.subnet r)))
                 (optionalField Subnet.netmask
                    (getSubnetInfo (subnetMatcher this) (Reservation.subnet r))))
            rs).
Proof.
  revert i report. induction rs as [|r rs IH]; intros i report.
  - simpl. by rewrite string_app_nil_r.
  - cbn [forEachIndexed]. rewrite IH, reportReservation_line.
    rewrite (imap_offset_cons
               (λ k r',
                  reservationLine k r'
                    (optionalField Subnet.subnet
                       (getSubnetInfo (subnetMatcher this) (Reservation.subnet r')))
                    (optionalField Subnet.netmask
                       (getSubnetInfo (subnetMatcher this) (Reservation.subnet r'))))).
    by rewrite concatStrings_cons, string_app_assoc.
Qed.

Lemma section_of_loop (title body : string) (lines : list string) (report : string) :
  (if (0 <? length lines)%nat then (report +:+ title +:+ nl) +:+ body +:+ nl
   else report)
  = report +:+ match lines with [] => "" | _ => title +:+ nl +:+ body +:+ nl end.
Proof.
  destruct lines; simpl.
  - by rewrite string_app_nil_r.
  - by rewrite !string_app_assoc.
Qed.

Lemma generateReport_normal_form (this : DHCPMigrator)
    (staticMappings : list StaticMapping.t) (result : MigrationResult.t) :
  generateReport this staticMappings result
  = reportHead (getStats this staticMappings result)
    +:+ reportSection "Created Reservations:"
          (imap (λ i r,
                   let subnetInfo :=
                     getSubnetInfo (subnetMatcher this) (Reservation.subnet r) in
                   reservationLine i r
                     (optionalField Subnet.subnet subnetInfo)
                     (optionalField Subnet.netmask subnetInfo))
                (MigrationResult.reservations result))
    +:+ reportSection "Unmatched IPs (no subnet found):"
          (bulletLine <$> MigrationResult.unmatchedIPs result)
    +:+ reportSection "Warnings:" (bulletLine <$> MigrationResult.warnings result)
    +:+ reportSection "Errors:" (bulletLine <$> MigrationResult.errors result)
    +:+ repeat_string "=" 60 +:+ nl.
Proof.
  unfold generateReport. cbv zeta.
  rewrite forEachIndexed_reservations, !foldl_reportBullet.
  set (stats := getStats this staticMappings result). clearbody stats.
  unfold reportHead.
  destruct result as [rs created us ws es].
  cbn [MigrationResult.reservations MigrationResult.unmatchedIPs
       MigrationResult.warnings MigrationResult.errors].
  destruct rs as [|r rs], us as [|u us], ws as [|w ws], es as [|e es];
    cbn [length Nat.ltb Nat.leb imap fmap list_fmap reportSection];
    rewrite ?string_app_assoc, ?string_app_nil_l, ?string_app_nil_r;
    reflexivity.
Qed.

(** X15. The report is its head (title and the seven statistics) followed
    by the four sections in a fixed order, reservations, unmatched IPs,
    warnings, errors, and the closing rule.  A section is left out when its
    list is empty; otherwise it holds its title, one line per entry in the
    order of the list, and an empty line.  The subnet of a reservation is
    shown as the subnet and netmask of the record that [getSubnetInfo]
    finds, and as undefined/undefined when it finds none. *)
Theorem generateReport_layout (this : DHCPMigrator)
    (staticMappings : list StaticMapping.t) (result : MigrationResult.t) :
  generateReport this staticMappings result
  = reportHead (getStats this staticMappings result)
    +:+ reportSection "Created Reservations:"
          (imap (λ i r,
                   let subnetInfo :=
                     getSubnetInfo (subnetMatcher this) (Reservation.subnet r) in
                   reservationLine i r
                     (optionalField Subnet.subnet subnetInfo)
                     (optionalField Subnet.netmask subnetInfo))
                (MigrationResult.reservations result))
    +:+ reportSection "Unmatched IPs (no subnet found):"
          (bulletLine <$> MigrationResult.unmatchedIPs result)
    +:+ reportSection "Warnings:" (bulletLine <$> MigrationResult.warnings result)
    +:+ reportSection "Errors:" (bulletLine <$> MigrationResult.errors result)
    +:+ repeat_string "=" 60 +:+ nl.
Proof.
  rewrite generateReport_normal_form.
  repeat f_equal.
Qed.


Lemma occursIn_concatStrings (pieces : list string) (i : nat) (piece : string) :
  pieces !! i = Some piece → occursIn piece (concatStrings pieces).
Proof.
  intros Hi. rewrite <- (take_drop_middle pieces i piece Hi).
  rewrite concatStrings_app, concatStrings_cons. by eexists _, _.
Qed.

Lemma occursIn_context (piece whole before after : string) :
  occursIn piece whole → occursIn piece (before +:+ whole +:+ after).
Proof.
  intros (x & y & ->). exists (before +:+ x), (y +:+ after).
  by rewrite !string_app_assoc.
Qed.

(** X16. In the report of a migration run every reservation has its
    numbered line, and the line names the subnet and the netmask of the
    input record whose id the reservation carries: a reservation that
    [migrate] created is never printed with an undefined subnet. *)
Theorem report_names_subnets (randomUUID : nat → string)
    (subnetList : list Subnet.t) (verbose : bool) (l : list StaticMapping.t)
    (i : nat) (r : Reservation.t) :
  let this := newDHCPMigrator subnetList verbose in
  let result := migrate randomUUID this l in
  MigrationResult.reservations result !! i = Some r →
  ∃ s, s ∈ subnetList ∧ Subnet.uuid s = Reservation.subnet r
       ∧ getSubnetInfo (subnetMatcher this) (Reservation.subnet r) = Some s
       ∧ occursIn (reservationLine i r (Subnet.subnet s) (Subnet.netmask s))
                  (generateReport this l result).
Proof.
  intros this result Hi.
  assert (Hin : r ∈ MigrationResult.reservations result)
    by by eapply list_elem_of_lookup_2.
  apply reservation_origin in Hin as (k & mapping & uuid & _ & Hres & Hu & Hr).
  destruct (isReserved_inv this mapping Hres) as (uuid' & Hu' & _ & Hfind & _).
  assert (uuid' = uuid) as -> by congruence.
  apply findSubnetForIP_resolves in Hfind as (s & _ & _ & Hinfo & _ & _ & Hid & Hs & _).
  assert (Hsub : Reservation.subnet r = uuid) by by rewrite Hr.
  exists s. rewrite Hsub. split_and!; [done..|].
  rewrite generateReport_normal_form.
  set (lines := imap _ (MigrationResult.reservations result)).
  assert (Hline : lines !! i
                  = Some (reservationLine i r (Subnet.subnet s) (Subnet.netmask s))).
  { unfold lines. rewrite list_lookup_imap, Hi. simpl.
    rewrite Hsub. fold this. by rewrite Hinfo. }
  apply (occursIn_context _ _ (reportHead _)).
  unfold reportSection. destruct lines as [|line lines'] eqn:Hlines; [done|].
  rewrite <- Hlines in *.
  apply occursIn_concatStrings in Hline.
  apply (occursIn_context _ _ ("Created Reservations:" +:+ nl) nl)
    in Hline as (x & y & Hxy).
  exists x, y. by rewrite <- Hxy, !string_app_assoc.
Qed.

Lemma report_names_subnets_witness :
  ∃ s, s ∈ [Subnet.mk "s1" "10.0.0.0" "8"] ∧ Subnet.uuid s = "s1"
       ∧ getSubnetInfo (newSubnetMatcher [Subnet.mk "s1" "10.0.0.0" "8"]) "s1" = Some s
       ∧ occursIn
           (reservationLine 0
              (Reservation.mk "0" "s1" "AA:BB:CC:DD:EE:FF" "10.0.0.5" None None)
              (Subnet.subnet s) (Subnet.netmask s))
           (generateReport (newDHCPMigrator [Subnet.mk "s1" "10.0.0.0" "8"] false)
              [StaticMapping.mk "AA:BB:CC:DD:EE:FF" "10.0.0.5" None None None None]
              (migrate (λ n, pretty n)
                 (newDHCPMigrator [Subnet.mk "s1" "10.0.0.0" "8"] false)
                 [StaticMapping.mk "AA:BB:CC:DD:EE:FF" "10.0.0.5" None None None None])).
Proof.
  exact (report_names_subnets (λ n, pretty n) [Subnet.mk "s1" "10.0.0.0" "8"] false
           [StaticMapping.mk "AA:BB:CC:DD:EE:FF" "10.0.0.5" None None None None]
           0 (Reservation.mk "0" "s1" "AA:BB:CC:DD:EE:FF" "10.0.0.5" None None)
           eq_refl).
Defined.

(** ** Netmasks and ranges; growing the subnet list *)

Lemma toMask_value (n : Z) : 0 ≤ n ≤ 32 → toMask n = (2 ^ n - 1) * 2 ^ (32 - n).
Proof.
  intros Hn. unfold toMask.
  by rewrite Z.shiftl_mul_pow2, Z.ones_equiv, <- Z.sub_1_r by lia.
Qed.

Lemma digits_1_3_nonempty (cs : list ascii) : digits_1_3 cs = true → cs ≠ [].
Proof. unfold digits_1_3. rewrite !andb_true_iff. by intros [[_ ?] _] ->. Qed.

(** X17. A dotted netmask that [buildCIDR] accepts is itself a valid IPv4
    string, and read as a 32-bit number it is the mask of the range: the
    first address of the range is the base address ANDed with the netmask,
    the last one is the first ORed with the complement of the netmask. *)
Theorem netmask_is_range_mask (subnet netmask : string) (cidr : IPv4CidrRange) :
  test_dotted_quad netmask = true →
  buildCIDR subnet netmask = Some cidr →
  ∃ mask,
    IPv4 netmask = Some mask
    ∧ mask = toMask (cidrPrefix cidr)
    ∧ getFirst cidr = Z.land (ipv4 cidr) mask
    ∧ getLast cidr = Z.lor (getFirst cidr) (2 ^ 32 - 1 - mask).
Proof.
  intros Hdot Hb.
  pose proof Hdot as (o1 & o2 & o3 & o4 & Hd & Hp)%test_dotted_quad_spec.
  rewrite (buildCIDR_dotted netmask o1 o2 o3 o4 Hd Hp) in Hb.
  destruct (IPv4 subnet) as [a|]; [|done].
  destruct (netmaskToCIDR netmask) as [n|] eqn:Hn; [|done]. simpl in Hb.
  apply fromCidr_Some in Hb as (_ & Hprefix & Hrange).
  apply (netmaskToCIDR_dotted netmask o1 o2 o3 o4 Hd Hp) in Hn as [Hle Hmask].
  pose proof (dotted_split netmask o1 o2 o3 o4 Hd Hp) as Hsplit.
  repeat match goal with
         | H : Forall _ (_ :: _) |- _ => apply Forall_cons in H as [? H]
         end.
  assert (Hoct : ∀ o, digits_1_3 o = true → digits_value o ≤ 255 →
                      parse_octet o = Some (digits_value o) ∧ 0 ≤ digits_value o).
  { intros o Ho Hv. split.
    - apply parse_octet_Some. split_and!; [|by apply digits_1_3_nonempty|done..].
      by apply digits_1_3_digits.
    - by apply digits_value_nonneg, digits_1_3_digits. }
  destruct (Hoct o1) as [P1 N1]; [done..|]. destruct (Hoct o2) as [P2 N2]; [done..|].
  destruct (Hoct o3) as [P3 N3]; [done..|]. destruct (Hoct o4) as [P4 N4]; [done..|].
  set (mask := ipv4_value (digits_value o1) (digits_value o2)
                 (digits_value o3) (digits_value o4)) in *.
  assert (Hbound : 0 ≤ mask < 2 ^ 32).
  { unfold mask, ipv4_value. change (2 ^ 32) with 4294967296. lia. }
  apply contiguousMask_value in Hmask as [_ Hval]; [|done].
  exists mask. split_and!.
  - unfold IPv4. rewrite Hsplit, P1, P2, P3, P4. done.
  - rewrite Hprefix, toMask_value by done. done.
  - unfold getFirst. rewrite Hprefix, toMask_value by done. by rewrite Hval.
  - unfold getLast. f_equal. rewrite Hprefix, Z.ones_equiv, <- Z.sub_1_r.
    rewrite Hval.
    replace (2 ^ 32) with (2 ^ n * 2 ^ (32 - n)); [lia|].
    rewrite <- Z.pow_add_r by lia. f_equal. lia.
Qed.

Lemma netmask_is_range_mask_witness :
  ∃ mask,
    IPv4 "255.255.240.0" = Some mask
    ∧ mask = toMask 20
    ∧ getFirst {| ipv4 := 2886734337; cidrPrefix := 20 |} = Z.land 2886734337 mask
    ∧ getLast {| ipv4 := 2886734337; cidrPrefix := 20 |}
      = Z.lor (getFirst {| ipv4 := 2886734337; cidrPrefix := 20 |})
              (2 ^ 32 - 1 - mask).
Proof.
  refine (netmask_is_range_mask "172.16.18.1" "255.255.240.0"
            {| ipv4 := 2886734337; cidrPrefix := 20 |} _ _);
    vm_compute; reflexivity.
Defined.

Section js_map_append.
Context {K V : Type} `{EqDecision K}.
Implicit Types m : Map K V.

Lemma Map_set_app_fresh m m' k v :
  k ∉ m.*1 → Map_set (m ++ m') k v = m ++ Map_set m' k v.
Proof.
  induction m as [|[k0 v0] m IH]; csimpl; [done|].
  rewrite not_elem_of_cons. intros [Hne Hk].
  rewrite decide_False by done. by rewrite IH.
Qed.

Lemma foldl_Map_set_fresh m m' (entries : list (K * V)) :
  Forall (λ entry, entry.1 ∉ m.*1) entries →
  foldl (λ acc entry, Map_set acc entry.1 entry.2) (m ++ m') entries
  = m ++ foldl (λ acc entry, Map_set acc entry.1 entry.2) m' entries.
Proof.
  intros Hfresh. revert m'.
  induction Hfresh as [|entry entries Hentry _ IH]; intros m'; [done|].
  cbn [foldl]. by rewrite Map_set_app_fresh, IH.
Qed.
End js_map_append.

Lemma firstContaining_app_cases (es es' : Map string IPv4CidrRange) (ip : Z) :
  firstContaining (es ++ es') ip
  = match firstContaining es ip with
    | Some uuid => Some uuid
    | None => firstContaining es' ip
    end.
Proof.
  induction es as [|[u r] es IH]; [done|]. simpl.
  by destruct (contains r ip).
Qed.

(** X18. Adding subnet records whose ids are new at the end of the list
    does not disturb the matcher: its ranges are those of the old list
    followed by those of the added records, every answer that
    [findSubnetForIP] gave stays the same, and an address that had no
    answer gets the answer of the added records alone. *)
Theorem appending_preserves_answers (l extra : list Subnet.t) (ipAddress : string) :
  (∀ s, s ∈ extra → builds s → Subnet.uuid s ∉ (retainedRanges l).*1) →
  subnets (newSubnetMatcher (l ++ extra))
  = subnets (newSubnetMatcher l) ++ subnets (newSubnetMatcher extra)
  ∧ findSubnetForIP (newSubnetMatcher (l ++ extra)) ipAddress
    = match findSubnetForIP (newSubnetMatcher l) ipAddress with
      | Some uuid => Some uuid
      | None => findSubnetForIP (newSubnetMatcher extra) ipAddress
      end.
Proof.
  intros Hfresh.
  assert (Hsub : subnets (newSubnetMatcher (l ++ extra))
                 = subnets (newSubnetMatcher l) ++ subnets (newSubnetMatcher extra)).
  { unfold newSubnetMatcher at 1. rewrite buildSubnetMap_app.
    fold (newSubnetMatcher l). rewrite subnets_fold.
    rewrite <- (app_nil_r (subnets (newSubnetMatcher l))) at 1.
    rewrite foldl_Map_set_fresh.
    - f_equal. unfold newSubnetMatcher. by rewrite subnets_fold.
    - apply Forall_forall. intros [u cidr] Hin. simpl.
      apply elem_of_retainedRanges in Hin as (s & Hs & <- & Hb).
      rewrite newSubnetMatcher_keys, elem_of_firstOccurrences.
      apply Hfresh; [done|]. unfold builds. by rewrite Hb. }
  split; [done|].
  unfold findSubnetForIP. rewrite Hsub.
  destruct (IPv4 ipAddress) as [ip|]; [|done].
  apply firstContaining_app_cases.
Qed.

Lemma appending_preserves_answers_witness :
  findSubnetForIP
    (newSubnetMatcher ([Subnet.mk "a" "10.0.0.0" "8"]
                       ++ [Subnet.mk "b" "10.0.0.0" "16"])) "10.0.0.5"
  = match findSubnetForIP (newSubnetMatcher [Subnet.mk "a" "10.0.0.0" "8"]) "10.0.0.5" with
    | Some uuid => Some uuid
    | None => findSubnetForIP (newSubnetMatcher [Subnet.mk "b" "10.0.0.0" "16"]) "10.0.0.5"
    end.
Proof.
  refine (proj2 (appending_preserves_answers [Subnet.mk "a" "10.0.0.0" "8"]
                   [Subnet.mk "b" "10.0.0.0" "16"] "10.0.0.5" _)).
  intros s Hs _. apply list_elem_of_singleton in Hs as ->.
  vm_compute. intros Hin. apply list_elem_of_singleton in Hin. discriminate.
Defined.
